(** * cinemAIc: the entity cache, the profile builder and the
      recommendation pipeline, embedded from the JavaScript sources.

    - [Js]        values, property access, truthiness, strict equality
    - [Env]       the module state of store.js, Firestore, the catalog
                  and the clock; the monad of the asynchronous functions
    - [Store]     js/store.js (cache kept live by Firestore listeners)
    - [Tmdb]      the boundary of js/tmdb.js
    - [Ai]        js/ai.js, [buildTasteProfile]
    - [Json]      [JSON.parse]
    - [Functions] the [askAI] cloud function
    - [App]       [backfillMissingData] and the resolution of picks in
                  [submitAIPrompt]
    - [Proxy]     the [tmdb] cloud function
    - [Views]     the rating modal, [handleAdd], the rows of Explore, the
                  sections of the grid and the profile modal of the
                  application

    The modules named [...Spec] hold the vocabulary of the statements and
    the sample data, the modules named [...Facts] the lemmas and theorems.
*)

From Stdlib Require Import ZArith List String Ascii Bool Lia Permutation Sorted.
From stdpp Require Import gmap strings list fin_maps pretty.

Set Default Proof Using "Type".

(* ===================================================================== *)
(** * JavaScript values *)
(* ===================================================================== *)

Module Js.

(** A Firestore document is a flat JavaScript object: a finite map from
    property names to values.  A property that is absent reads as
    [undefined], which is [None] here. *)
#[warnings="-register-all"]
Inductive value : Type :=
  | VNull
  | VBool (b : bool)
  | VNum (n : Z)
  | VStr (s : string)
  | VArr (xs : list value).

Abbreviation obj := (gmap string value).

(** ToBoolean. *)
Definition truthy (v : option value) : bool :=
  match v with
  | None | Some VNull => false
  | Some (VBool b) => b
  | Some (VNum n) => negb (n =? 0)%Z
  | Some (VStr s) => negb (String.eqb s "")
  | Some (VArr _) => true
  end.

(** [a === b].  Two arrays are equal only when they are the same object;
    every array in this model is a fresh one. *)
Definition strict_eq (a b : option value) : bool :=
  match a, b with
  | None, None => true
  | Some VNull, Some VNull => true
  | Some (VBool x), Some (VBool y) => Bool.eqb x y
  | Some (VNum x), Some (VNum y) => (x =? y)%Z
  | Some (VStr x), Some (VStr y) => String.eqb x y
  | _, _ => false
  end.

(** [a == null]. *)
Definition nullish (v : option value) : bool :=
  match v with
  | None | Some VNull => true
  | _ => false
  end.

Fixpoint join (sep : string) (xs : list string) : string :=
  match xs with
  | [] => ""
  | [x] => x
  | x :: rest => x +:+ sep +:+ join sep rest
  end.

(** ToString on a value. *)
Fixpoint to_string (v : value) : string :=
  match v with
  | VNull => "null"
  | VBool true => "true"
  | VBool false => "false"
  | VNum n => pretty n
  | VStr s => s
  | VArr xs =>
      join "," (map (fun x => match x with VNull => "" | _ => to_string x end) xs)
  end.

(** [String(v)]. *)
Definition String_ (v : option value) : string :=
  match v with
  | None => "undefined"
  | Some x => to_string x
  end.

(** What an [async] function or a call can end with. *)
Inductive exn : Type :=
  | FirebaseError (code : string)
  | TypeError
  | SyntaxError
  | HttpsError (code message : string).

Inductive outcome (A : Type) : Type :=
  | Ok (a : A)
  | Throw (e : exn).
Arguments Ok {A} a.
Arguments Throw {A} e.

End Js.

(* ===================================================================== *)
(** * The environment *)
(* ===================================================================== *)

Module Env.
Import Js.

Inductive media : Type := movie | tv.

#[global] Instance media_eq_dec : EqDecision media.
Proof. solve_decision. Defined.

Definition media_name (t : media) : string :=
  match t with movie => "movie" | tv => "tv" end.

(** What a Firestore listener is attached to. *)
Inductive target : Type :=
  | Collection (uid : string) (type : media)
  | ProfileDoc (uid : string).

(** What a listener receives. *)
Inductive snapshot : Type :=
  | QuerySnapshot (docs : list obj)
  | DocSnapshot (data : option obj).

(** A write sent to Firestore. *)
Inductive request : Type :=
  | SetDoc (path : string) (data : obj)
  | DeleteDoc (path : string)
  | UpdateDoc (path : string) (updates : obj).

(** A call into js/tmdb.js. *)
Inductive catalog_call : Type :=
  | SearchMovies (query : option value)
  | SearchTV (query : option value)
  | GetMovieDetails (id : option value)
  | GetTVDetails (id : option value).

(** The module state of store.js ([cache], [profileCache], [currentUid],
    [unsubscribers]) together with what it talks to: Firestore (the
    listeners, the documents, the writes received so far and whether the
    n-th write will be accepted), the catalog (the calls received so far
    and what the n-th call will answer) and the clock. *)
Record world : Type := World {
  cache_movie : list obj;
  cache_tv : list obj;
  profileCache_tasteNotes : option value;
  currentUid : option string;
  unsub_movie : option nat;
  unsub_tv : option nat;
  unsub_profile : option nat;
  (* Firestore *)
  listeners : gmap nat target;
  next_listener : nat;
  remote : gmap string obj;
  requests : list request;
  firestore_accepts : nat -> bool;
  (* the catalog *)
  catalog_calls : list catalog_call;
  catalog_details : nat -> outcome obj;
  catalog_search : nat -> outcome (list obj);
  (* Date.now() *)
  now : Z;
}.

Definition initial (acc : nat -> bool) (det : nat -> outcome obj)
    (sea : nat -> outcome (list obj)) (t : Z) : world :=
  World [] [] (Some (VStr "")) None None None None ∅ 0 ∅ [] acc [] det sea t.

Definition set_cache (type : media) (docs : list obj) (w : world) : world :=
  match type with
  | movie =>
      World docs (cache_tv w) (profileCache_tasteNotes w) (currentUid w)
        (unsub_movie w) (unsub_tv w) (unsub_profile w)
        (listeners w) (next_listener w) (remote w) (requests w)
        (firestore_accepts w) (catalog_calls w) (catalog_details w)
        (catalog_search w) (now w)
  | tv =>
      World (cache_movie w) docs (profileCache_tasteNotes w) (currentUid w)
        (unsub_movie w) (unsub_tv w) (unsub_profile w)
        (listeners w) (next_listener w) (remote w) (requests w)
        (firestore_accepts w) (catalog_calls w) (catalog_details w)
        (catalog_search w) (now w)
  end.

Definition set_tasteNotes (v : option value) (w : world) : world :=
  World (cache_movie w) (cache_tv w) v (currentUid w)
    (unsub_movie w) (unsub_tv w) (unsub_profile w)
    (listeners w) (next_listener w) (remote w) (requests w)
        (firestore_accepts w) (catalog_calls w) (catalog_details w)
        (catalog_search w) (now w).

Definition set_currentUid (u : option string) (w : world) : world :=
  World (cache_movie w) (cache_tv w) (profileCache_tasteNotes w) u
    (unsub_movie w) (unsub_tv w) (unsub_profile w)
    (listeners w) (next_listener w) (remote w) (requests w)
        (firestore_accepts w) (catalog_calls w) (catalog_details w)
        (catalog_search w) (now w).

Definition set_unsubscribers (m t p : option nat) (w : world) : world :=
  World (cache_movie w) (cache_tv w) (profileCache_tasteNotes w) (currentUid w)
    m t p
    (listeners w) (next_listener w) (remote w) (requests w)
        (firestore_accepts w) (catalog_calls w) (catalog_details w)
        (catalog_search w) (now w).

Definition set_listeners (ls : gmap nat target) (next : nat) (w : world) : world :=
  World (cache_movie w) (cache_tv w) (profileCache_tasteNotes w) (currentUid w)
    (unsub_movie w) (unsub_tv w) (unsub_profile w)
    ls next (remote w) (requests w)
        (firestore_accepts w) (catalog_calls w) (catalog_details w)
        (catalog_search w) (now w).

Definition set_remote (r : gmap string obj) (rs : list request) (w : world) : world :=
  World (cache_movie w) (cache_tv w) (profileCache_tasteNotes w) (currentUid w)
    (unsub_movie w) (unsub_tv w) (unsub_profile w)
    (listeners w) (next_listener w) r rs
        (firestore_accepts w) (catalog_calls w) (catalog_details w)
        (catalog_search w) (now w).

Definition set_catalog_calls (cs : list catalog_call) (w : world) : world :=
  World (cache_movie w) (cache_tv w) (profileCache_tasteNotes w) (currentUid w)
    (unsub_movie w) (unsub_tv w) (unsub_profile w)
    (listeners w) (next_listener w) (remote w) (requests w)
        (firestore_accepts w) cs (catalog_details w)
        (catalog_search w) (now w).

(** ** The monad of the asynchronous functions *)

Definition M (A : Type) : Type := world -> outcome A * world.

Definition ret {A} (a : A) : M A := fun w => (Ok a, w).

Definition bind {A B} (m : M A) (k : A -> M B) : M B :=
  fun w =>
    match m w with
    | (Ok a, w') => k a w'
    | (Throw e, w') => (Throw e, w')
    end.

Definition try_catch {A} (m : M A) (h : exn -> M A) : M A :=
  fun w =>
    match m w with
    | (Ok a, w') => (Ok a, w')
    | (Throw e, w') => h e w'
    end.

Definition get_world : M world := fun w => (Ok w, w).

End Env.

Notation "'let*' x := m 'in' k" := (Env.bind m (fun x => k))
  (at level 10, x name, m at level 100, k at level 200).
Notation "'do*' m 'in' k" := (Env.bind m (fun _ => k))
  (at level 10, m at level 100, k at level 200).

(* ===================================================================== *)
(** * js/store.js *)
(* ===================================================================== *)

Module Store.
Import Js Env.

(** ** Firestore primitives *)

(** Calling the function [onSnapshot] returned. *)
Definition unsubscribe (h : option nat) (w : world) : world :=
  match h with
  | Some k => set_listeners (delete k (listeners w)) (next_listener w) w
  | None => w
  end.

(** [onSnapshot(target, callback)]: registers the listener and returns its
    handle.  The callback runs later, from [deliver]. *)
Definition onSnapshot (tg : target) (w : world) : nat * world :=
  let k := next_listener w in
  (k, set_listeners (<[k := tg]> (listeners w)) (S k) w).

(** The callbacks of [setUser], run when Firestore delivers a snapshot to
    listener [k]; a listener that was unsubscribed is not called. *)
Definition deliver (k : nat) (snap : snapshot) (w : world) : world :=
  match listeners w !! k, snap with
  | Some (Collection _ type), QuerySnapshot docs => set_cache type docs w
  | Some (ProfileDoc _), DocSnapshot (Some data) =>
      set_tasteNotes
        (if truthy (data !! "tasteNotes") then data !! "tasteNotes"
         else Some (VStr "")) w
  | Some (ProfileDoc _), DocSnapshot None => set_tasteNotes (Some (VStr "")) w
  | _, _ => w
  end.

(** A write is recorded, then accepted or rejected; a rejected write
    rejects the promise. *)
Definition send (r : request) (apply : gmap string obj -> option (gmap string obj))
  : M unit :=
  fun w =>
    let w1 := set_remote (remote w) (requests w ++ [r]) w in
    if firestore_accepts w (length (requests w)) then
      match apply (remote w) with
      | Some r' => (Ok tt, set_remote r' (requests w1) w1)
      | None => (Throw (FirebaseError "not-found"), w1)
      end
    else (Throw (FirebaseError "unavailable"), w1).

Definition setDoc (path : string) (data : obj) : M unit :=
  send (SetDoc path data) (fun r => Some (<[path := data]> r)).

Definition deleteDoc (path : string) : M unit :=
  send (DeleteDoc path) (fun r => Some (delete path r)).

(** [updateDoc] overwrites the given fields of a document that exists. *)
Definition updateDoc (path : string) (updates : obj) : M unit :=
  send (UpdateDoc path updates)
    (fun r => match r !! path with
              | Some d => Some (<[path := updates ∪ d]> r)
              | None => None
              end).

(** ** Auth handoff *)

Definition uid_truthy (uid : option string) : bool :=
  match uid with
  | None => false
  | Some s => negb (String.eqb s "")
  end.

Definition setUser (uid : option string) (w : world) : world :=
  (* Tear down existing listeners *)
  let w := unsubscribe (unsub_movie w) w in
  let w := unsubscribe (unsub_tv w) w in
  let w := unsubscribe (unsub_profile w) w in
  let w := set_unsubscribers None None None w in
  let w := set_currentUid uid w in
  match uid with
  | Some u =>
      if uid_truthy uid then
        let '(km, w) := onSnapshot (Collection u movie) w in
        let w := set_unsubscribers (Some km) (unsub_tv w) (unsub_profile w) w in
        let '(kt, w) := onSnapshot (Collection u tv) w in
        let w := set_unsubscribers (unsub_movie w) (Some kt) (unsub_profile w) w in
        let '(kp, w) := onSnapshot (ProfileDoc u) w in
        set_unsubscribers (unsub_movie w) (unsub_tv w) (Some kp) w
      else
        set_tasteNotes (Some (VStr "")) (set_cache tv [] (set_cache movie [] w))
  | None =>
      set_tasteNotes (Some (VStr "")) (set_cache tv [] (set_cache movie [] w))
  end.

(** ** Reads *)

Definition getAll (type : media) (w : world) : list obj :=
  match type with movie => cache_movie w | tv => cache_tv w end.

Definition getItem (type : media) (tmdbId : option value) (w : world) : option obj :=
  List.find (fun i => strict_eq (i !! "tmdbId") tmdbId) (getAll type w).

(** ** Writes *)

Definition ref (type : media) (tmdbId : option value) (w : world) : string :=
  "users/" +:+ default "" (currentUid w) +:+ "/" +:+ media_name type
    +:+ "/" +:+ String_ tmdbId.

Definition new_item (item : obj) (t : Z) : obj :=
  <["notes" := VStr ""]>
    (<["rating" := VNull]>
       (<["watched" := VBool false]>
          (<["addedAt" := VNum t]> item))).

Definition addItem (type : media) (item : obj) : M bool :=
  let* w := get_world in
  if negb (uid_truthy (currentUid w)) then ret false
  else
    match List.find (fun i => strict_eq (i !! "tmdbId") (item !! "tmdbId"))
            (getAll type w) with
    | Some _ => ret false
    | None =>
        do* setDoc (ref type (item !! "tmdbId") w) (new_item item (now w)) in
        ret true
    end.

Definition removeItem (type : media) (tmdbId : option value) : M unit :=
  let* w := get_world in
  if negb (uid_truthy (currentUid w)) then ret tt
  else deleteDoc (ref type tmdbId w).

Definition markWatched (type : media) (tmdbId : option value)
    (rating : value) (notes : value) : M unit :=
  let* w := get_world in
  if negb (uid_truthy (currentUid w)) then ret tt
  else
    updateDoc (ref type tmdbId w)
      {[ "watched" := VBool true; "watchedAt" := VNum (now w);
         "rating" := rating; "notes" := notes ]}.

Definition unmarkWatched (type : media) (tmdbId : option value) : M unit :=
  let* w := get_world in
  if negb (uid_truthy (currentUid w)) then ret tt
  else
    updateDoc (ref type tmdbId w)
      {[ "watched" := VBool false; "watchedAt" := VNull;
         "rating" := VNull; "notes" := VStr "" ]}.

Definition updateRating (type : media) (tmdbId : option value)
    (rating : value) (notes : value) : M unit :=
  let* w := get_world in
  if negb (uid_truthy (currentUid w)) then ret tt
  else updateDoc (ref type tmdbId w) {[ "rating" := rating; "notes" := notes ]}.

Definition patchItem (type : media) (tmdbId : option value) (updates : obj) : M unit :=
  let* w := get_world in
  if negb (uid_truthy (currentUid w)) then ret tt
  else updateDoc (ref type tmdbId w) updates.

(** ** Taste profile notes *)

Definition getTasteNotes (w : world) : option value := profileCache_tasteNotes w.

Definition saveTasteNotes (notes : value) : M unit :=
  let* w := get_world in
  if negb (uid_truthy (currentUid w)) then ret tt
  else
    do* setDoc ("users/" +:+ default "" (currentUid w) +:+ "/profile/taste")
          {[ "tasteNotes" := notes ]} in
    fun w' => (Ok tt, set_tasteNotes (Some notes) w').

End Store.

(* ===================================================================== *)
(** * js/tmdb.js, at its boundary *)
(* ===================================================================== *)

Module Tmdb.
Import Js Env.

(** The four entry points the application uses go through a cloud function
    to the catalog.  Each call is recorded, and the environment decides
    what the n-th call answers: a normalized record, a list of them, or an
    exception. *)
Definition call_details (c : catalog_call) : M obj :=
  fun w =>
    (catalog_details w (length (catalog_calls w)),
     set_catalog_calls (catalog_calls w ++ [c]) w).




Definition getMovieDetails (id : option value) : M obj :=
  call_details (GetMovieDetails id).

Definition getTVDetails (id : option value) : M obj :=
  call_details (GetTVDetails id).

End Tmdb.

(* ===================================================================== *)
(** * js/ai.js: the taste profile *)
(* ===================================================================== *)

Module Ai.

(** The fields of a stored item that [buildTasteProfile] reads.  [rating]
    is [null] or a number, [genres] may be missing, an empty [notes] is
    no note. *)
Record item : Type := Item {
  title : string;
  year : string;
  genres : option (list string);
  watched : bool;
  rating : option Z;
  notes : string;
}.

Record loved_entry : Type := Loved {
  loved_title : string;
  loved_year : string;
  loved_genres : list string;
  loved_stars : option Z;
  loved_notes : option string;
}.

Record liked_entry : Type := Liked {
  liked_title : string;
  liked_genres : list string;
}.

Record profile : Type := Profile {
  loved : list loved_entry;
  liked : list liked_entry;
  watchedUnrated : list string;
  watchlist : list string;
  topGenres : list string;
  personalNotes : option string;
}.

(** ** The object [genreScore]

    A JavaScript object enumerates its own properties with the array
    indices first, in ascending numeric order, and the other names after
    them in the order of their creation.  [genreScore] is the list of its
    properties in that order.  Its values are numbers as long as no genre
    is named like a property every object inherits ([inherited]): the
    model covers the other names. *)

Definition inherited : list string :=
  ["constructor"; "toString"; "toLocaleString"; "valueOf"; "hasOwnProperty";
   "isPrototypeOf"; "propertyIsEnumerable"; "__proto__";
   "__defineGetter__"; "__defineSetter__"; "__lookupGetter__";
   "__lookupSetter__"].

Definition digit_of (c : ascii) : option N :=
  let n := N_of_ascii c in
  if ((48 <=? n) && (n <=? 57))%N then Some (n - 48)%N else None.

Fixpoint digits_value (s : string) (acc : N) : option N :=
  match s with
  | EmptyString => Some acc
  | String c rest =>
      match digit_of c with
      | Some d => digits_value rest (10 * acc + d)%N
      | None => None
      end
  end.

(** The array index a property name denotes: a canonical decimal numeral
    below 2^32 - 1. *)
Definition array_index (s : string) : option N :=
  match s with
  | EmptyString => None
  | String c rest =>
      if (N_of_ascii c =? 48)%N then
        match rest with EmptyString => Some 0%N | _ => None end
      else
        match digits_value s 0 with
        | Some n => if (n <? 4294967295)%N then Some n else None
        | None => None
        end
  end.

Definition props : Type := list (string * Z).

Fixpoint get_prop (k : string) (o : props) : option Z :=
  match o with
  | [] => None
  | (e, x) :: rest => if String.eqb e k then Some x else get_prop k rest
  end.

Fixpoint update_prop (k : string) (v : Z) (o : props) : props :=
  match o with
  | [] => []
  | (e, x) :: rest =>
      if String.eqb e k then (e, v) :: rest else (e, x) :: update_prop k v rest
  end.

(** A new index goes before the first name that is no index or a larger
    index. *)
Fixpoint insert_index (k : string) (n : N) (v : Z) (o : props) : props :=
  match o with
  | [] => [(k, v)]
  | (e, x) :: rest =>
      match array_index e with
      | Some m =>
          if (n <? m)%N then (k, v) :: o else (e, x) :: insert_index k n v rest
      | None => (k, v) :: o
      end
  end.

(** [o[k] = v]. *)
Definition set_prop (k : string) (v : Z) (o : props) : props :=
  match get_prop k o with
  | Some _ => update_prop k v o
  | None =>
      match array_index k with
      | Some n => insert_index k n v o
      | None => o ++ [(k, v)]
      end
  end.

(** ** [Array.prototype.sort]

    The sort is stable, and with a comparator that is the difference of
    two numbers its result is the stable sorted arrangement; insertion
    from the right computes it. *)
Fixpoint insert_sorted {A} (cmp : A -> A -> Z) (x : A) (l : list A) : list A :=
  match l with
  | [] => [x]
  | y :: rest =>
      if (cmp x y <=? 0)%Z then x :: l else y :: insert_sorted cmp x rest
  end.

Definition sort {A} (cmp : A -> A -> Z) (l : list A) : list A :=
  fold_right (insert_sorted cmp) [] l.

(** ** [buildTasteProfile] *)

Definition genres_of (i : item) : list string := default [] (genres i).

(** [i.rating >= 4]: [null] converts to 0. *)
Definition rating_ge (i : item) (n : Z) : bool :=
  match rating i with
  | Some r => (n <=? r)%Z
  | None => (n <=? 0)%Z
  end.

(** [i.rating === 3]. *)
Definition rating_is (i : item) (n : Z) : bool :=
  match rating i with
  | Some r => (r =? n)%Z
  | None => false
  end.

(** [!i.rating]. *)
Definition rating_falsy (i : item) : bool :=
  match rating i with
  | Some r => (r =? 0)%Z
  | None => true
  end.

(** [i.rating || 3]. *)
Definition weight (i : item) : Z :=
  match rating i with
  | Some r => if (r =? 0)%Z then 3%Z else r
  | None => 3%Z
  end.

Definition loved_of (i : item) : loved_entry :=
  Loved (title i) (year i) (genres_of i) (rating i)
    (if String.eqb (notes i) "" then None else Some (notes i)).

Definition liked_of (i : item) : liked_entry :=
  Liked (title i) (genres_of i).

(** [genreScore[g] = (genreScore[g] || 0) + weight]. *)
Definition add_score (w : Z) (o : props) (g : string) : props :=
  set_prop g (default 0%Z (get_prop g o) + w)%Z o.

(** The two nested [forEach]. *)
Definition genreScore (watchedItems : list item) : props :=
  fold_left (fun o i => fold_left (add_score (weight i)) (genres_of i) o)
    watchedItems [].

Definition by_score_desc (a b : string * Z) : Z := (snd b - snd a)%Z.

Section Profile.

(** [String.prototype.trim]. *)
Variable trim : string -> string.

Definition buildTasteProfile (items : list item) (tasteNotes : string) : profile :=
  let watchedItems := List.filter watched items in
  {| loved := map loved_of (List.filter (fun i => rating_ge i 4) watchedItems);
     liked := map liked_of (List.filter (fun i => rating_is i 3) watchedItems);
     watchedUnrated := map title (List.filter rating_falsy watchedItems);
     watchlist := map title (List.filter (fun i => negb (watched i)) items);
     topGenres :=
       map fst (take 8 (sort by_score_desc (genreScore watchedItems)));
     personalNotes :=
       if String.eqb (trim tasteNotes) "" then None else Some (trim tasteNotes) |}.

End Profile.

End Ai.

(* ===================================================================== *)
(** * [JSON.parse] *)
(* ===================================================================== *)

Module Json.

(** A JavaScript string is the list of its UTF-16 code units. *)
Definition ustring : Type := list N.

Definition U (s : string) : ustring := map N_of_ascii (list_ascii_of_string s).

(** A number is kept exactly: [(-1)^negative * digits * 10^exp10]. *)
#[warnings="-register-all"]
Inductive json : Type :=
  | JNull
  | JBool (b : bool)
  | JNum (negative : bool) (digits : N) (exp10 : Z)
  | JStr (s : ustring)
  | JArr (xs : list json)
  | JObj (members : list (ustring * json)).

Inductive token : Type :=
  | TLBrace | TRBrace | TLBracket | TRBracket | TColon | TComma
  | TString (s : ustring)
  | TNumber (negative : bool) (digits : N) (exp10 : Z)
  | TTrue | TFalse | TNull.

(** ** Numbers *)

Definition is_digit (c : N) : bool := ((48 <=? c) && (c <=? 57))%N.

Fixpoint span_digits (s : ustring) : ustring * ustring :=
  match s with
  | c :: rest =>
      if is_digit c then
        let '(ds, tl) := span_digits rest in (c :: ds, tl)
      else ([], s)
  | [] => ([], [])
  end.

Definition digits_N (ds : ustring) : N :=
  fold_left (fun acc c => (10 * acc + (c - 48))%N) ds 0%N.

(** A number: an optional minus sign; 0, or digits that do not start
    with 0; optionally a point and digits; optionally e or E, a sign and
    digits. *)
Definition parse_number (s : ustring) : option token :=
  let '(negative, s) :=
    match s with
    | 45%N :: rest => (true, rest)
    | _ => (false, s)
    end in
  let '(int_part, s) := span_digits s in
  match int_part with
  | [] => None
  | 48%N :: _ :: _ => None
  | _ =>
      let frac :=
        match s with
        | 46%N :: rest =>
            let '(fs, tl) := span_digits rest in
            match fs with [] => None | _ => Some (fs, tl) end
        | _ => Some ([], s)
        end in
      match frac with
      | None => None
      | Some (frac_part, s) =>
          let expo :=
            match s with
            | [] => Some 0%Z
            | e :: rest =>
                if ((e =? 101) || (e =? 69))%N then
                  let '(minus, rest) :=
                    match rest with
                    | 45%N :: r => (true, r)
                    | 43%N :: r => (false, r)
                    | _ => (false, rest)
                    end in
                  match span_digits rest with
                  | ((_ :: _) as es, []) =>
                      Some (if minus then (- Z.of_N (digits_N es))%Z
                            else Z.of_N (digits_N es))
                  | _ => None
                  end
                else None
            end in
          match expo with
          | None => None
          | Some e =>
              Some (TNumber negative (digits_N (int_part ++ frac_part))
                      (e - Z.of_nat (length frac_part))%Z)
          end
      end
  end.

(** ** The lexer: one pass over the code units *)

Inductive lex_state : Type :=
  | LStart
  | LString (rev_chars : ustring)
  | LEscape (rev_chars : ustring)
  | LUnicode (rev_chars : ustring) (hex : list N)
  | LWord (rev_chars : ustring)
  | LNumber (rev_chars : ustring).

Definition is_space (c : N) : bool :=
  ((c =? 32) || (c =? 9) || (c =? 10) || (c =? 13))%N.

Definition is_lower (c : N) : bool := ((97 <=? c) && (c <=? 122))%N.

Definition is_number_char (c : N) : bool :=
  (is_digit c || (c =? 43) || (c =? 45) || (c =? 46) || (c =? 101) || (c =? 69))%N.

Definition hex_value (c : N) : option N :=
  if is_digit c then Some (c - 48)%N
  else if ((97 <=? c) && (c <=? 102))%N then Some (c - 87)%N
  else if ((65 <=? c) && (c <=? 70))%N then Some (c - 55)%N
  else None.

Definition word_token (w : ustring) : option token :=
  if decide (w = U "true") then Some TTrue
  else if decide (w = U "false") then Some TFalse
  else if decide (w = U "null") then Some TNull
  else None.

(** A code unit met between two tokens. *)
Definition start_char (c : N) : option (lex_state * list token) :=
  if is_space c then Some (LStart, [])
  else if (c =? 123)%N then Some (LStart, [TLBrace])
  else if (c =? 125)%N then Some (LStart, [TRBrace])
  else if (c =? 91)%N then Some (LStart, [TLBracket])
  else if (c =? 93)%N then Some (LStart, [TRBracket])
  else if (c =? 58)%N then Some (LStart, [TColon])
  else if (c =? 44)%N then Some (LStart, [TComma])
  else if (c =? 34)%N then Some (LString [], [])
  else if (is_digit c || (c =? 45)%N) then Some (LNumber [c], [])
  else if is_lower c then Some (LWord [c], [])
  else None.

Definition escape_char (c : N) : option N :=
  if ((c =? 34) || (c =? 92) || (c =? 47))%N then Some c
  else if (c =? 98)%N then Some 8%N
  else if (c =? 102)%N then Some 12%N
  else if (c =? 110)%N then Some 10%N
  else if (c =? 114)%N then Some 13%N
  else if (c =? 116)%N then Some 9%N
  else None.

Fixpoint lex (st : lex_state) (s : ustring) (rev_out : list token)
  : option (list token) :=
  match s with
  | [] =>
      match st with
      | LStart => Some (rev rev_out)
      | LWord w => option_map (fun t => rev (t :: rev_out)) (word_token (rev w))
      | LNumber w => option_map (fun t => rev (t :: rev_out)) (parse_number (rev w))
      | LString _ | LEscape _ | LUnicode _ _ => None
      end
  | c :: rest =>
      match st with
      | LStart =>
          match start_char c with
          | Some (st', ts) => lex st' rest (ts ++ rev_out)
          | None => None
          end
      | LString cs =>
          if (c =? 34)%N then lex LStart rest (TString (rev cs) :: rev_out)
          else if (c =? 92)%N then lex (LEscape cs) rest rev_out
          else if (c <? 32)%N then None
          else lex (LString (c :: cs)) rest rev_out
      | LEscape cs =>
          if (c =? 117)%N then lex (LUnicode cs []) rest rev_out
          else
            match escape_char c with
            | Some e => lex (LString (e :: cs)) rest rev_out
            | None => None
            end
      | LUnicode cs hex =>
          match hex_value c with
          | Some h =>
              match hex with
              | [a; b; d] =>
                  lex (LString ((((a * 16 + b) * 16 + d) * 16 + h)%N :: cs))
                    rest rev_out
              | _ => lex (LUnicode cs (hex ++ [h])) rest rev_out
              end
          | None => None
          end
      | LWord w =>
          if is_lower c then lex (LWord (c :: w)) rest rev_out
          else
            match word_token (rev w), start_char c with
            | Some t, Some (st', ts) => lex st' rest (ts ++ t :: rev_out)
            | _, _ => None
            end
      | LNumber w =>
          if is_number_char c then lex (LNumber (c :: w)) rest rev_out
          else
            match parse_number (rev w), start_char c with
            | Some t, Some (st', ts) => lex st' rest (ts ++ t :: rev_out)
            | _, _ => None
            end
      end
  end.

(** ** The parser: one pass over the tokens, with a stack of the arrays
       and objects that are open *)

Inductive frame : Type :=
  | FArr (rev_elems : list json)
  | FObj (rev_members : list (ustring * json)) (key : option ustring).

Inductive expect : Type :=
  | EValue | EValueOrClose | EKeyOrClose | EKey | EColon | ECommaOrClose
  | EDone (v : json).

Definition push_value (v : json) (stack : list frame) : option (list frame * expect) :=
  match stack with
  | [] => Some ([], EDone v)
  | FArr es :: st => Some (FArr (v :: es) :: st, ECommaOrClose)
  | FObj ms (Some k) :: st => Some (FObj ((k, v) :: ms) None :: st, ECommaOrClose)
  | FObj _ None :: _ => None
  end.

Definition scalar (t : token) : option json :=
  match t with
  | TString s => Some (JStr s)
  | TNumber n d e => Some (JNum n d e)
  | TTrue => Some (JBool true)
  | TFalse => Some (JBool false)
  | TNull => Some JNull
  | _ => None
  end.

Definition parse_step (t : token) (stack : list frame) (e : expect)
  : option (list frame * expect) :=
  match e, t with
  | (EValue | EValueOrClose), TLBracket => Some (FArr [] :: stack, EValueOrClose)
  | (EValue | EValueOrClose), TLBrace => Some (FObj [] None :: stack, EKeyOrClose)
  | EValueOrClose, TRBracket =>
      match stack with
      | FArr es :: st => push_value (JArr (rev es)) st
      | _ => None
      end
  | (EValue | EValueOrClose), _ =>
      match scalar t with
      | Some v => push_value v stack
      | None => None
      end
  | EKeyOrClose, TRBrace =>
      match stack with
      | FObj ms None :: st => push_value (JObj (rev ms)) st
      | _ => None
      end
  | (EKeyOrClose | EKey), TString k =>
      match stack with
      | FObj ms None :: st => Some (FObj ms (Some k) :: st, EColon)
      | _ => None
      end
  | EColon, TColon => Some (stack, EValue)
  | ECommaOrClose, TComma =>
      match stack with
      | FArr _ :: _ => Some (stack, EValue)
      | FObj _ None :: _ => Some (stack, EKey)
      | _ => None
      end
  | ECommaOrClose, TRBracket =>
      match stack with
      | FArr es :: st => push_value (JArr (rev es)) st
      | _ => None
      end
  | ECommaOrClose, TRBrace =>
      match stack with
      | FObj ms None :: st => push_value (JObj (rev ms)) st
      | _ => None
      end
  | _, _ => None
  end.

Fixpoint parse_tokens (ts : list token) (stack : list frame) (e : expect)
  : option json :=
  match ts with
  | [] => match e with EDone v => Some v | _ => None end
  | t :: rest =>
      match parse_step t stack e with
      | Some (stack', e') => parse_tokens rest stack' e'
      | None => None
      end
  end.

(** [JSON.parse(text)]; [None] is the [SyntaxError]. *)
Definition parse (text : ustring) : option json :=
  match lex LStart text [] with
  | Some ts => parse_tokens ts [] EValue
  | None => None
  end.

(** ** Reading a parsed value *)

(** [o[k]] on the object [JSON.parse] built: of two members with one name
    the later one stays. *)
Fixpoint get_member (k : ustring) (members : list (ustring * json)) : option json :=
  match members with
  | [] => None
  | (k', v) :: rest =>
      match get_member k rest with
      | Some later => Some later
      | None => if decide (k' = k) then Some v else None
      end
  end.

(** Whether the number is a zero of the double precision format: it is
    when it rounds to zero, which is below half of the least positive
    double, 2^-1075, and at it. *)
Definition is_zero (digits : N) (exp10 : Z) : bool :=
  if (digits =? 0)%N then true
  else if (0 <=? exp10)%Z then false
  else (Z.of_N digits * 2 ^ 1075 <=? 10 ^ (- exp10))%Z.

(** ToBoolean. *)
Definition truthy (v : option json) : bool :=
  match v with
  | None | Some JNull => false
  | Some (JBool b) => b
  | Some (JNum _ d e) => negb (is_zero d e)
  | Some (JStr s) => match s with [] => false | _ => true end
  | Some (JArr _) | Some (JObj _) => true
  end.

End Json.

(* ===================================================================== *)
(** * The cloud function [askAI] *)
(* ===================================================================== *)

Module Functions.
Import Js Json.

(** A block of [message.content]; only a text block has [text]. *)
Record content_block : Type := Block { text : option ustring }.

Record message : Type := Message { content : list content_block }.

Record call : Type := Call {
  auth : bool;
  prompt : option ustring;   (* [None]: missing, or not a string *)
}.

(** What [askAI] returns. *)
Inductive response : Type :=
  | Recommendations (items : json)
  | Answer (heading text : json).

(** [raw.match(/\{[\s\S]*\}/)]: from the first opening brace to the last
    closing brace after it. *)
Fixpoint from_first_open (s : ustring) : ustring :=
  match s with
  | [] => []
  | c :: rest => if (c =? 123)%N then s else from_first_open rest
  end.

Fixpoint through_last_close (s : ustring) : option ustring :=
  match s with
  | [] => None
  | c :: rest =>
      match through_last_close rest with
      | Some r => Some (c :: r)
      | None => if (c =? 125)%N then Some [c] else None
      end
  end.

Definition match_braces (raw : ustring) : option ustring :=
  through_last_close (from_first_open raw).

(** [v || d]. *)
Definition or_else (v : option json) (d : json) : json :=
  match v with
  | Some x => if truthy v then x else d
  | None => d
  end.

(** [parsed.k]. *)
Definition prop (parsed : json) (k : string) : outcome (option json) :=
  match parsed with
  | JObj members => Ok (get_member (U k) members)
  | JNull => Throw TypeError
  | _ => Ok None
  end.

Definition is_string (v : option json) (s : string) : bool :=
  match v with
  | Some (JStr x) => bool_decide (x = U s)
  | _ => false
  end.

Definition classify (parsed : json) : outcome response :=
  match prop parsed "type" with
  | Throw e => Throw e
  | Ok type =>
      if is_string type "recommendations" then
        match prop parsed "items" with
        | Ok items => Ok (Recommendations (or_else items (JArr [])))
        | Throw e => Throw e
        end
      else if is_string type "answer" then
        match prop parsed "heading", prop parsed "text" with
        | Ok heading, Ok text =>
            Ok (Answer (or_else heading (JStr [])) (or_else text (JStr [])))
        | Throw e, _ | _, Throw e => Throw e
        end
      else Throw (HttpsError "internal" "Unexpected AI response type.")
  end.

(** [message.content[0]?.text || '{}']. *)
Definition raw_text (m : message) : ustring :=
  match head (content m) with
  | Some b =>
      match text b with
      | Some ((_ :: _) as t) => t
      | _ => U "{}"
      end
  | None => U "{}"
  end.

(** The body of the [try] once the model has answered. *)
Definition read_message (m : message) : outcome response :=
  match match_braces (raw_text m) with
  | None => Throw (HttpsError "internal" "Unexpected AI response format.")
  | Some matched =>
      match parse matched with
      | None => Throw SyntaxError
      | Some parsed => classify parsed
      end
  end.

Section AskAI.

(** [String.prototype.trim]. *)
Variable trim : ustring -> ustring.

(** [askAI]: [key] is the configured secret, [created] what
    [client.messages.create] ended with. *)
Definition askAI (request : call) (key : bool) (created : outcome message)
  : outcome response :=
  if negb (auth request) then Throw (HttpsError "unauthenticated" "Must be signed in.")
  else
    match prompt request with
    | None => Throw (HttpsError "invalid-argument" "Prompt is required.")
    | Some p =>
        match p, trim p with
        | [], _ | _, [] => Throw (HttpsError "invalid-argument" "Prompt is required.")
        | _, _ =>
            if negb key then Throw (HttpsError "internal" "AI not configured.")
            else
              let attempt :=
                match created with
                | Ok m => read_message m
                | Throw e => Throw e
                end in
              match attempt with
              | Ok r => Ok r
              | Throw (HttpsError c msg) => Throw (HttpsError c msg)
              | Throw _ => Throw (HttpsError "internal" "AI request failed.")
              end
        end
    end.

End AskAI.

End Functions.

(* ===================================================================== *)
(** * The application: backfill and the resolution of picks *)
(* ===================================================================== *)

Module App.
Import Js Env Store Tmdb.

(** [v?.length] read as a condition. *)
Definition has_length (v : option value) : bool :=
  match v with
  | Some (VArr xs) => negb (Nat.eqb (length xs) 0)
  | Some (VStr s) => negb (String.eqb s "")
  | _ => false
  end.

Definition is_undefined (v : option value) : bool :=
  match v with None => true | Some _ => false end.

(** The filter of [backfillMissingData]. *)
Definition needs_backfill (i : obj) : bool :=
  nullish (i !! "tmdbRating")
  || negb (has_length (i !! "genres"))
  || is_undefined (i !! "releaseDate")
  || negb (has_length (i !! "genreIds")).

(** [updates.k = v]. *)
Definition assign (k : string) (v : option value) (o : obj) : obj :=
  match v with
  | Some x => <[k := x]> o
  | None => o
  end.

(** [v ?? null]. *)
Definition or_null (v : option value) : option value :=
  match v with
  | None | Some VNull => Some VNull
  | Some x => Some x
  end.

(** The object [updates] built from the fetched details. *)
Definition backfill_updates (details : obj) : obj :=
  let updates : obj := ∅ in
  let updates :=
    if negb (nullish (details !! "tmdbRating"))
    then assign "tmdbRating" (details !! "tmdbRating") updates else updates in
  let updates :=
    if has_length (details !! "genres")
    then assign "genres" (details !! "genres") updates else updates in
  let updates :=
    if has_length (details !! "genreIds")
    then assign "genreIds" (details !! "genreIds") updates else updates in
  let updates :=
    if negb (is_undefined (details !! "releaseDate"))
    then assign "releaseDate" (or_null (details !! "releaseDate")) updates
    else updates in
  updates.

Definition getDetails (type : media) (id : option value) : M obj :=
  match type with
  | movie => getMovieDetails id
  | tv => getTVDetails id
  end.

(** The body of the inner loop, with its [try]/[catch]. *)
Definition backfill_item (type : media) (item : obj) : M unit :=
  try_catch
    (let* details := getDetails type (item !! "tmdbId") in
     let updates := backfill_updates details in
     if negb (Nat.eqb (size updates) 0)
     then patchItem type (item !! "tmdbId") updates
     else ret tt)
    (fun _ => ret tt).

Fixpoint for_each {A} (f : A -> M unit) (xs : list A) : M unit :=
  match xs with
  | [] => ret tt
  | x :: rest => do* f x in for_each f rest
  end.

Definition backfill_type (type : media) : M unit :=
  let* w := get_world in
  let needsBackfill := List.filter needs_backfill (getAll type w) in
  for_each (backfill_item type) needsBackfill.

(** The run is taken in one piece: no other handler of the application
    comes in between at its [await]s. *)
Definition backfillMissingData : M unit :=
  do* backfill_type movie in backfill_type tv.

(** ** Resolution of picks, the recommendations branch of [submitAIPrompt] *)






(** ** [submitAIPrompt] and [state.mediaType] *)




End App.

(* ===================================================================== *)
(** * The [tmdb] cloud function *)
(* ===================================================================== *)

Module Proxy.
Import Js.

(** What the handler reads of [request]: whether it carries an identity,
    and its [data], [None] when the caller sent none and otherwise the
    property [path] of what was sent. *)
Record call : Type := Call {
  auth : bool;
  data : option (option value);
}.

(** What [fetch] resolved with: [res.ok], [res.status] and what the
    promise [res.json()] ends with. *)
Record reply (A : Type) : Type := Reply {
  ok : bool;
  status : Z;
  json : outcome A;
}.
Arguments Reply {A} ok status json.
Arguments ok {A} r.
Arguments status {A} r.
Arguments json {A} r.

(** [typeof path === 'string']. *)
Definition is_string (v : option value) : bool :=
  match v with
  | Some (VStr _) => true
  | _ => false
  end.

(** [path.startsWith('/')], for a string. *)
Definition startsWith_slash (v : option value) : bool :=
  match v with
  | Some (VStr (String c _)) => Ascii.eqb c "/"
  | _ => false
  end.

(** [tmdb]: [key] tells whether the secret is configured, [fetched] is
    what building the URL and [fetch] ended with.  The promise of
    [res.json()] is returned from inside the [try] without [await], so its
    rejection does not pass through the [catch]. *)
Definition tmdb {A} (request : call) (key : bool) (fetched : outcome (reply A))
  : outcome A :=
  if negb (auth request) then Throw (HttpsError "unauthenticated" "Must be signed in.")
  else
    match data request with
    | None => Throw TypeError
    | Some path =>
        if negb (truthy path) || negb (is_string path) || negb (startsWith_slash path)
        then Throw (HttpsError "invalid-argument" "Invalid TMDB path.")
        else if negb key then Throw (HttpsError "internal" "API key not configured.")
        else
          let attempt : outcome (outcome A) :=
            match fetched with
            | Throw e => Throw e
            | Ok res =>
                if negb (ok res)
                then Throw (HttpsError "internal"
                              ("TMDB error: " +:+ pretty (status res)))
                else Ok (json res)
            end in
          match attempt with
          | Ok promise => promise
          | Throw (HttpsError c msg) => Throw (HttpsError c msg)
          | Throw _ => Throw (HttpsError "internal" "Unexpected error.")
          end
    end.

End Proxy.

(* ===================================================================== *)
(** * The views of the application *)
(* ===================================================================== *)

Module Views.
Import Js Env Store Tmdb.

(** ** The rating modal, [openRateModal] *)

(** The modal once it is open: the record it is for, whether it edits a
    rating, and [selectedRating]. *)
Record rate_modal : Type := RateModal {
  rm_type : media;
  rm_tmdbId : option value;
  rm_editing : bool;
  selectedRating : value;
}.

(** [v || d]. *)
Definition or_value (v : option value) (d : value) : value :=
  match v with
  | Some x => if truthy v then x else d
  | None => d
  end.

(** The modal opens only for a record of the cached collection. *)
Definition openRateModal (type : media) (tmdbId : option value) (editing : bool)
    (w : world) : option rate_modal :=
  match List.find (fun i => strict_eq (i !! "tmdbId") tmdbId) (getAll type w) with
  | None => None
  | Some item =>
      Some (RateModal type tmdbId editing (or_value (item !! "rating") (VNum 0)))
  end.

(** The values of the five star buttons. *)
Definition stars : list Z := [1; 2; 3; 4; 5]%Z.

(** A click on the star button number [k]. *)
Definition click_star (k : nat) (m : rate_modal) : rate_modal :=
  match stars !! k with
  | Some val => RateModal (rm_type m) (rm_tmdbId m) (rm_editing m) (VNum val)
  | None => m
  end.

Section Save.

(** [String.prototype.trim]. *)
Variable trim : string -> string.

(** A click on the save button, [text] being the content of the notes
    field. *)
Definition save_rating (text : string) (m : rate_modal) : M unit :=
  let notes := VStr (trim text) in
  if rm_editing m
  then updateRating (rm_type m) (rm_tmdbId m)
         (or_value (Some (selectedRating m)) VNull) notes
  else markWatched (rm_type m) (rm_tmdbId m)
         (or_value (Some (selectedRating m)) VNull) notes.

End Save.

(** ** Adding a search result, [handleAdd] *)

(** The toast [handleAdd] ends with, for the title it names. *)
Inductive toast : Type :=
  | AlreadyOnList (title : string)
  | AddedToWatchlist (title : string).

Definition handleAdd (mediaType : media) (item : obj) : M toast :=
  let* enriched :=
    try_catch (App.getDetails mediaType (item !! "tmdbId")) (fun _ => ret item) in
  let* added := addItem mediaType enriched in
  if negb added then ret (AlreadyOnList (String_ (item !! "title")))
  else ret (AddedToWatchlist (String_ (item !! "title"))).

(** ** The rows of Explore, [renderExplore] *)

(** The fields of a stored record that the choice of the rows reads, with
    the types the data model gives them: [rating] and [watchedAt] are
    [null] or a number. *)
Record entry : Type := Entry {
  tmdbId : Z;
  watched : bool;
  rating : option Z;
  watchedAt : option Z;
}.

(** [v || 0], for [null] or a number. *)
Definition or_0 (v : option Z) : Z := default 0%Z v.

(** The comparator of the sources: [d1 || d2]. *)
Definition by_rating_then_recency (a b : entry) : Z :=
  let d := (or_0 (rating b) - or_0 (rating a))%Z in
  if (d =? 0)%Z then (or_0 (watchedAt b) - or_0 (watchedAt a))%Z else d.

(** The records Explore makes a row for. *)
Definition sources (items : list entry) : list entry :=
  take 6 (Ai.sort by_rating_then_recency (List.filter watched items)).

(** ** The two sections of the grid, [renderGrid] *)

(** [!d || d <= today], for a release date that is [null] or a string. *)
Definition is_released (today : string) (releaseDate : option string) : bool :=
  match releaseDate with
  | None => true
  | Some d => String.eqb d "" || String.leb d today
  end.

(** [d && d > today]. *)
Definition is_upcoming (today : string) (releaseDate : option string) : bool :=
  match releaseDate with
  | None => false
  | Some d => negb (String.eqb d "") && String.ltb today d
  end.

Definition released {A} (releaseDate : A -> option string) (today : string)
    (items : list A) : list A :=
  List.filter (fun i => is_released today (releaseDate i)) items.

Definition upcoming {A} (releaseDate : A -> option string) (today : string)
    (items : list A) : list A :=
  List.filter (fun i => is_upcoming today (releaseDate i)) items.

(** ** The profile modal, [openProfileModal] *)

(** [b.rating - a.rating]: [null] converts to 0. *)
Definition by_stars_desc (a b : Ai.item) : Z :=
  (default 0 (Ai.rating b) - default 0 (Ai.rating a))%Z.

Definition modal_loved (allMovies allTV : list Ai.item) : list Ai.item :=
  Ai.sort by_stars_desc
    (List.filter (fun i => Ai.rating_ge i 4)
       (List.filter Ai.watched (allMovies ++ allTV))).

Definition modal_liked (allMovies allTV : list Ai.item) : list Ai.item :=
  List.filter (fun i => Ai.rating_is i 3)
    (List.filter Ai.watched (allMovies ++ allTV)).

Definition modal_topGenres (allMovies allTV : list Ai.item) : list string :=
  map fst
    (take 10 (Ai.sort Ai.by_score_desc
                (Ai.genreScore (List.filter Ai.watched (allMovies ++ allTV))))).

End Views.

(* ===================================================================== *)
(** * The vocabulary of the statements *)
(* ===================================================================== *)

(** * Vocabulary and sample data for the cache *)

Module StoreSpec.
Import Js Env Store.

(** A cached record. *)
Definition film : obj := {[ "tmdbId" := VNum 603; "title" := VStr "The Matrix" ]}.

(** A fresh session: nobody bound, nothing cached, Firestore accepting
    every write. *)
Definition quiet : world :=
  initial (fun _ => true) (fun _ => Throw (FirebaseError "unavailable"))
    (fun _ => Throw (FirebaseError "unavailable")) 1700000000000.

(** alice is bound and the first snapshot of her movies has arrived. *)
Definition alice_with_film : world :=
  deliver 0 (QuerySnapshot [film]) (setUser (Some "alice") quiet).

(** The record has the catalog id [n]. *)
Definition has_id (n : Z) (i : obj) : Prop := i !! "tmdbId" = Some (VNum n).

(** The fields [addItem] initializes. *)
Definition user_fields_of_new : list string := ["addedAt"; "watched"; "rating"; "notes"].

(** A candidate that is not in the cache. *)
Definition heat : obj := {[ "tmdbId" := VNum 949; "title" := VStr "Heat" ]}.

(** alice is bound and the first snapshot of her movies has arrived, and
    Firestore rejects every write. *)
Definition alice_offline : world :=
  deliver 0 (QuerySnapshot [film])
    (setUser (Some "alice")
       (initial (fun _ => false) (fun _ => Throw (FirebaseError "unavailable"))
          (fun _ => Throw (FirebaseError "unavailable")) 1700000000000)).

End StoreSpec.

(** * Vocabulary and sample data for the backfill *)

Module BackfillSpec.
Import Js Env Store Tmdb App.

(** The fields the user owns. *)
Definition user_owned : list string := ["watched"; "watchedAt"; "rating"; "notes"].

(** The descriptive fields the backfill may write. *)
Definition backfilled : list string := ["tmdbRating"; "genres"; "genreIds"; "releaseDate"].

(** The value of field [f] of the remote document at [path]. *)
Definition field (path f : string) (w : world) : option value :=
  remote w !! path ≫= (fun d : obj => d !! f).

(** The fetch of the details of record [i]. *)
Definition detail_call (type : media) (i : obj) : catalog_call :=
  match type with
  | movie => GetMovieDetails (i !! "tmdbId")
  | tv => GetTVDetails (i !! "tmdbId")
  end.

(** The request is a patch built from details the catalog answered. *)
Definition from_details (w : world) (r : request) : Prop :=
  exists path k d,
    catalog_details w k = Ok d /\ r = UpdateDoc path (backfill_updates d).

(** What a run of the backfill leaves as it was, and what it adds. *)
Record frame (w w' : world) : Prop := Frame {
  fr_movie : cache_movie w' = cache_movie w;
  fr_tv : cache_tv w' = cache_tv w;
  fr_uid : currentUid w' = currentUid w;
  fr_details : catalog_details w' = catalog_details w;
  fr_requests :
    exists new, requests w' = requests w ++ new /\ Forall (from_details w) new;
  fr_fields :
    forall path f, In f user_owned -> field path f w' = field path f w;
}.

(** The patch sent for [item] when its fetch is answered by [reply]. *)
Definition patch_of (w : world) (type : media) (item : obj) (reply : outcome obj)
  : list request :=
  match reply with
  | Ok d =>
      if uid_truthy (currentUid w) && negb (Nat.eqb (size (backfill_updates d)) 0)
      then [UpdateDoc (ref type (item !! "tmdbId") w) (backfill_updates d)]
      else []
  | Throw _ => []
  end.

(** The patches for [items], whose fetches are the calls number [k],
    [k + 1], ... *)
Fixpoint patches_from (w : world) (type : media) (k : nat) (items : list obj)
  : list request :=
  match items with
  | [] => []
  | i :: rest =>
      patch_of w type i (catalog_details w k) ++ patches_from w type (S k) rest
  end.

(** The cached records that miss a descriptive field. *)
Definition needy (type : media) (w : world) : list obj :=
  List.filter needs_backfill (getAll type w).

(** A watched record with a score and a release date, and no genres. *)
Definition matrix_stale : obj :=
  {[ "tmdbId" := VNum 603; "title" := VStr "The Matrix";
     "tmdbRating" := VNum 70; "releaseDate" := VStr "1999-03-30";
     "genreIds" := VArr [VNum 28]; "watched" := VBool true;
     "rating" := VNum 5; "notes" := VStr "again" ]}.

(** What the catalog knows about it. *)
Definition matrix_details : obj :=
  {[ "tmdbId" := VNum 603; "title" := VStr "The Matrix";
     "tmdbRating" := VNum 82; "releaseDate" := VStr "1999-03-31";
     "genres" := VArr [VStr "Action"; VStr "Science Fiction"];
     "genreIds" := VArr [VNum 28; VNum 878] ]}.

(** alice is bound, the record is cached and stored, and the catalog
    answers every fetch with these details. *)
Definition stale_world : world :=
  set_remote {[ "users/alice/movie/603" := matrix_stale ]} []
    (deliver 0 (QuerySnapshot [matrix_stale])
       (setUser (Some "alice")
          (initial (fun _ => true) (fun _ => Ok matrix_details)
             (fun _ => Throw (FirebaseError "unavailable")) 1700000000000))).

End BackfillSpec.

(** * Vocabulary and sample data for the resolution of picks *)

Module ResolveSpec.
Import Js Env Store Tmdb App.







End ResolveSpec.

(** * Vocabulary and sample data for the taste profile *)

Module AiSpec.
Import Ai.
Open Scope Z_scope.

(** The comparator of a descending sort by [key]. *)
Definition desc {A} (key : A -> Z) (a b : A) : Z := key b - key a.

(** [a] may stand before [b]. *)
Definition ge_key {A} (key : A -> Z) (a b : A) : Prop := key b <= key a.

(** The genres the two loops visit, each with the weight of its item. *)
Definition scored (ws : list item) : list (string * Z) :=
  flat_map (fun i => map (fun g => (g, weight i)) (genres_of i)) ws.

(** The object after the visits [L], from the object [o]. *)
Definition acc (o : props) (L : list (string * Z)) : props :=
  fold_left (fun o gw => add_score (snd gw) o (fst gw)) L o.

(** The sum of the weights of the occurrences of [g]. *)
Fixpoint total (g : string) (L : list (string * Z)) : Z :=
  match L with
  | [] => 0
  | (g', w) :: rest => (if String.eqb g' g then w else 0) + total g rest
  end.

(** The genre occurs among the visits. *)
Definition seen (g : string) (L : list (string * Z)) : bool :=
  existsb (fun gw => String.eqb (fst gw) g) L.

(** A rating, where there is one, is a number of stars from 1 to 5. *)
Definition valid_rating (i : item) : Prop :=
  match rating i with
  | Some r => 1 <= r <= 5
  | None => True
  end.

(** No genre of a watched item is named like a property that every
    object inherits, so that every score is a number. *)
Definition own_names (items : list item) : bool :=
  forallb (fun i => forallb (fun g => negb (existsb (String.eqb g) inherited))
                      (genres_of i))
    (List.filter watched items).

(** The four lists in the words of the data model: watched and rated 4
    or more; watched and rated 3; watched and without a rating; not
    watched. *)
Definition is_loved (i : item) : bool :=
  watched i && match rating i with Some r => 4 <=? r | None => false end.

Definition is_liked (i : item) : bool :=
  watched i && match rating i with Some r => r =? 3 | None => false end.

Definition is_watchedUnrated (i : item) : bool :=
  watched i && match rating i with Some _ => false | None => true end.

Definition is_watchlist (i : item) : bool := negb (watched i).

(** Five items, one for each list and one rated 2. *)
Definition shelf : list item :=
  [ Item "Heat" "1995" (Some ["Crime"; "Drama"]) true (Some 5) "the diner scene";
    Item "Tenet" "2020" (Some ["Action"]) true (Some 2) "";
    Item "Dune" "2021" (Some ["Science Fiction"]) true None "";
    Item "Fargo" "1996" (Some ["Crime"]) true (Some 3) "";
    Item "Alien" "1979" None false None "" ].

(** The three items of the example. *)
Definition drama_comedy : list item :=
  [ Item "A" "2001" (Some ["Drama"]) true (Some 5) "";
    Item "B" "2002" (Some ["Drama"]) true (Some 3) "";
    Item "C" "2003" (Some ["Comedy"]) true (Some 4) "" ].


(** The names of [names] in the order of their first occurrence. *)
Fixpoint first_seen_from (ks names : list string) : list string :=
  match names with
  | [] => ks
  | g :: rest =>
      first_seen_from (if existsb (String.eqb g) ks then ks else ks ++ [g]) rest
  end.

Definition first_seen (names : list string) : list string :=
  first_seen_from [] names.

(** The sum of [f] over the items. *)
Fixpoint sum_over (f : item -> Z) (l : list item) : Z :=
  match l with
  | [] => 0
  | i :: rest => f i + sum_over f rest
  end.

(** The rating of the item, 3 when it has none. *)
Definition stars_or_3 (i : item) : Z :=
  match rating i with
  | Some r => r
  | None => 3
  end.

(** How often the item lists the genre. *)
Definition occurrences (g : string) (i : item) : Z :=
  Z.of_nat (length (List.filter (String.eqb g) (genres_of i))).

(** One term for every occurrence of the genre in a watched item. *)
Definition score_by_occurrence (items : list item) (g : string) : Z :=
  sum_over (fun i => stars_or_3 i * occurrences g i) (List.filter watched items).

(** One term for every watched item that carries the genre. *)
Definition claimed_score (items : list item) (g : string) : Z :=
  sum_over (fun i => if existsb (String.eqb g) (genres_of i) then stars_or_3 i else 0)
    (List.filter watched items).

(** The ranking by [claimed_score], ties in the order of first
    occurrence, cut at 8. *)
Definition claimed_topGenres (items : list item) : list string :=
  take 8 (sort (desc (claimed_score items))
            (first_seen (flat_map genres_of (List.filter watched items)))).

(** Sample items: a genre named like an array index, and a genre listed
    twice. *)
Definition drama_and_7 : list item :=
  [ Item "A" "2001" (Some ["Drama"; "7"]) true (Some 5) "" ].

Definition drama_twice : list item :=
  [ Item "B" "2002" (Some ["Drama"; "Drama"]) true (Some 5) "" ].

End AiSpec.

(** * Vocabulary and sample data for [askAI] *)

Module AskAISpec.
Import Js Json Functions.

(** The outermost open container is an object. *)
Fixpoint bottom_obj (stack : list frame) : bool :=
  match stack with
  | [] => false
  | [FObj _ _] => true
  | [FArr _] => false
  | _ :: st => bottom_obj st
  end.

(** The value is an object. *)
Definition is_obj (v : json) : Prop := exists members, v = JObj members.

(** The state of the parser after an opening brace as first token. *)
Definition opened_by_brace (stack : list frame) (e : expect) : Prop :=
  match e with
  | EDone v => is_obj v
  | _ => bottom_obj stack = true
  end.

(** The three errors of the pipeline. *)
Definition format_error : exn := HttpsError "internal" "Unexpected AI response format.".
Definition type_error : exn := HttpsError "internal" "Unexpected AI response type.".
Definition request_failed : exn := HttpsError "internal" "AI request failed.".

(** The request passes the checks made before the model is called. *)
Definition accepted_call (trim : ustring -> ustring) (request : call) : Prop :=
  auth request = true
  /\ exists p, prompt request = Some p /\ p <> [] /\ trim p <> [].

(** The text [s] between double quotes. *)
Definition quoted (s : string) : ustring := 34%N :: U s ++ [34%N].

(** The answer envelope of the example, heading H and text T. *)
Definition answer_payload : ustring :=
  U "{" ++ quoted "type" ++ U ":" ++ quoted "answer" ++ U ","
    ++ quoted "heading" ++ U ":" ++ quoted "H" ++ U ","
    ++ quoted "text" ++ U ":" ++ quoted "T" ++ U "}".

(** An envelope of type weird. *)
Definition weird_payload : ustring :=
  U "{" ++ quoted "type" ++ U ":" ++ quoted "weird" ++ U "}".

(** The message whose only block is the text [t]. *)
Definition says (t : ustring) : message := Message [Block (Some t)].

(** A signed-in request with a prompt. *)
Definition a_call : call := Call true (Some (U "something tense")).

End AskAISpec.

(** * Vocabulary and sample data for the writes and the listeners *)

Module CacheSpec.
Import Js Env Store StoreSpec.

(** The writes of store.js, as values. *)
Inductive write : Type :=
  | WAdd (type : media) (item : obj)
  | WRemove (type : media) (tmdbId : option value)
  | WMarkWatched (type : media) (tmdbId : option value) (rating notes : value)
  | WUnmarkWatched (type : media) (tmdbId : option value)
  | WUpdateRating (type : media) (tmdbId : option value) (rating notes : value)
  | WPatch (type : media) (tmdbId : option value) (updates : obj)
  | WSaveTasteNotes (notes : value).

(** The world after the write, whatever it returned or threw. *)
Definition after_write (op : write) (w : world) : world :=
  match op with
  | WAdd type item => snd (addItem type item w)
  | WRemove type id => snd (removeItem type id w)
  | WMarkWatched type id rating notes => snd (markWatched type id rating notes w)
  | WUnmarkWatched type id => snd (unmarkWatched type id w)
  | WUpdateRating type id rating notes => snd (updateRating type id rating notes w)
  | WPatch type id updates => snd (patchItem type id updates w)
  | WSaveTasteNotes notes => snd (saveTasteNotes notes w)
  end.

(** What can happen to the store: the application binds an identity,
    Firestore delivers a snapshot to a listener, the application writes. *)
Inductive event : Type :=
  | Bind (uid : option string)
  | Snapshot (k : nat) (snap : snapshot)
  | Write (op : write).

Definition step (w : world) (e : event) : world :=
  match e with
  | Bind uid => setUser uid w
  | Snapshot k snap => deliver k snap w
  | Write op => after_write op w
  end.

Definition run (es : list event) (w : world) : world := fold_left step es w.

(** The listeners Firestore holds are the ones store.js keeps the handles
    of: none when signed out, one for each category and one for the
    profile document of the bound user otherwise. *)
Definition tracked (w : world) : Prop :=
  (forall k, is_Some (listeners w !! k) -> k < next_listener w)
  /\ match currentUid w with
     | Some u =>
         if uid_truthy (Some u) then
           exists km kt kp,
             unsub_movie w = Some km /\ unsub_tv w = Some kt
             /\ unsub_profile w = Some kp
             /\ km <> kt /\ km <> kp /\ kt <> kp
             /\ listeners w =
                  {[ km := Collection u movie; kt := Collection u tv;
                     kp := ProfileDoc u ]}
         else
           unsub_movie w = None /\ unsub_tv w = None /\ unsub_profile w = None
           /\ listeners w = ∅
     | None =>
         unsub_movie w = None /\ unsub_tv w = None /\ unsub_profile w = None
         /\ listeners w = ∅
     end.

(** The two worlds have the same binding: the same identity, handles and
    listeners. *)
Definition same_binding (w w' : world) : Prop :=
  listeners w' = listeners w
  /\ next_listener w' = next_listener w
  /\ currentUid w' = currentUid w
  /\ unsub_movie w' = unsub_movie w
  /\ unsub_tv w' = unsub_tv w
  /\ unsub_profile w' = unsub_profile w.

(** The two worlds have the same cache. *)
Definition same_cache (w w' : world) : Prop :=
  cache_movie w' = cache_movie w /\ cache_tv w' = cache_tv w.

(** The fields that record what the user did with an item. *)
Definition user_state : list string := ["watched"; "watchedAt"; "rating"; "notes"].

(** A bound user with one stored, unwatched record, and Firestore
    accepting every write. *)
Definition alice_stored : world :=
  set_remote {[ "users/alice/movie/603" := new_item film 1690000000000 ]} []
    (deliver 0 (QuerySnapshot [new_item film 1690000000000])
       (setUser (Some "alice") quiet)).

(** The record a write is for: its category and the text of its id, as
    [String(tmdbId)] gives it; none for the taste notes. *)
Definition record_of (op : write) : option (media * string) :=
  match op with
  | WAdd type item => Some (type, String_ (item !! "tmdbId"))
  | WRemove type id
  | WMarkWatched type id _ _
  | WUnmarkWatched type id
  | WUpdateRating type id _ _
  | WPatch type id _ => Some (type, String_ id)
  | WSaveTasteNotes _ => None
  end.

(** The path of the document a write is sent to. *)
Definition address (op : write) (w : world) : string :=
  match op with
  | WAdd type item => ref type (item !! "tmdbId") w
  | WRemove type id
  | WMarkWatched type id _ _
  | WUnmarkWatched type id
  | WUpdateRating type id _ _
  | WPatch type id _ => ref type id w
  | WSaveTasteNotes _ => "users/" +:+ default "" (currentUid w) +:+ "/profile/taste"
  end.

End CacheSpec.

(** * Vocabulary for the outcomes of [askAI] *)

Module CallableSpec.
Import Js Json Functions AskAISpec.

(** The errors of the checks [askAI] makes before it calls the model. *)
Definition unauthenticated : exn := HttpsError "unauthenticated" "Must be signed in.".
Definition prompt_required : exn := HttpsError "invalid-argument" "Prompt is required.".
Definition not_configured : exn := HttpsError "internal" "AI not configured.".

(** The request is signed in and its prompt is missing, no string, empty
    or blank. *)
Definition no_prompt (trim : ustring -> ustring) (request : call) : Prop :=
  auth request = true
  /\ (prompt request = None
      \/ exists p, prompt request = Some p /\ (p = [] \/ trim p = [])).

(** The text of the message holds a JSON object with these members, from
    its first opening brace to its last closing brace. *)
Definition holds_object (m : message) (members : list (ustring * json)) : Prop :=
  exists matched,
    match_braces (raw_text m) = Some matched
    /\ parse matched = Some (JObj members).

End CallableSpec.

(** * Vocabulary for the [tmdb] cloud function *)

Module ProxySpec.
Import Js Proxy.

(** The path of the request is a string that starts with a slash. *)
Definition good_path (request : call) : Prop :=
  exists rest, data request = Some (Some (VStr (String "/" rest))).

(** The request passes the checks made before the catalog is asked. *)
Definition passes (request : call) (key : bool) : Prop :=
  auth request = true /\ good_path request /\ key = true.

Definition upstream_error (status : Z) : exn :=
  HttpsError "internal" ("TMDB error: " +:+ pretty status).

End ProxySpec.

(** * Vocabulary for the rating modal *)

Module ModalSpec.
Import Js Env Store Tmdb App Views StoreSpec BackfillSpec.
Open Scope Z_scope.

(** A number of stars: [null], or a number from 1 to 5. *)
Definition valid_stars (v : value) : Prop :=
  v = VNull \/ exists n, v = VNum n /\ 1 <= n <= 5.

(** The rating of the record, where it has one, is a number of stars. *)
Definition stored_stars_valid (item : obj) : Prop :=
  match item !! "rating" with
  | Some v => valid_stars v
  | None => True
  end.

(** The modal after clicks on the star buttons number [ks]. *)
Definition clicks (ks : list nat) (m : rate_modal) : rate_modal :=
  fold_left (fun m k => click_star k m) ks m.

(** What the modal holds as selected rating: 0 for none, or 1 to 5. *)
Definition selected_ok (v : value) : Prop :=
  exists n, v = VNum n /\ 0 <= n <= 5.

End ModalSpec.

(** * Vocabulary for the rows of Explore *)

Module ExploreSpec.
Import Views AiSpec.
Open Scope Z_scope.

(** [a] may stand before [b]: it has the higher rating, or the same
    rating and was watched no earlier; a missing rating or time counts as
    0. *)
Definition outranks (a b : entry) : Prop :=
  or_0 (rating b) < or_0 (rating a)
  \/ (or_0 (rating a) = or_0 (rating b)
      /\ or_0 (watchedAt b) <= or_0 (watchedAt a)).

End ExploreSpec.

(** * Vocabulary for the profile modal *)

Module ProfileViewSpec.
Import Js Ai AiSpec.
Open Scope Z_scope.

(** The stars of a record, 0 when it has no rating. *)
Definition stars_of (i : item) : Z := default 0 (rating i).

(** The genres of the watched items. *)
Definition watched_genres (items : list item) : list string :=
  flat_map genres_of (List.filter watched items).

End ProfileViewSpec.

(* ===================================================================== *)
(** * Theorems *)
(* ===================================================================== *)

Module StoreFacts.
Import Js Env Store StoreSpec.

Lemma getAll_set_cache t t' docs w :
  getAll t (set_cache t' docs w) = if decide (t = t') then docs else getAll t w.
Proof. destruct t, t'; reflexivity. Qed.

Lemma getAll_unsubscribe t h w : getAll t (unsubscribe h w) = getAll t w.
Proof. destruct h, t; reflexivity. Qed.

(** Claim C1, as amended.  Right after [setUser uid], before any snapshot
    is delivered, [getAll] returns the empty collection for every category
    when [uid] is null or the empty string (signed out); when [uid] names a
    user it returns what the cache held before the call: [setUser] clears
    the local collections for the signed-out identity only. *)
Theorem setUser_getAll (uid : option string) (w : world) (type : media) :
  getAll type (setUser uid w) = if uid_truthy uid then getAll type w else [].
Proof.
  destruct w as [cm ct tn cu [km|] [kt|] [kp|] ls nx rm rq fa cc cd cs t];
    destruct uid as [u|]; unfold setUser; cbn;
    try destruct (negb (String.eqb u "")); destruct type; reflexivity.
Qed.

(** Claim C1 as stated fails: alice is bound and her snapshot delivered,
    then bob is bound; before any snapshot for bob, [getAll movie] still
    returns alice's collection. *)
Lemma setUser_rebind_keeps_collections :
  getAll movie (setUser (Some "bob") alice_with_film) = [film]
  /\ getAll movie (setUser (Some "bob") alice_with_film) <> [].
Proof. split; [vm_compute; reflexivity | discriminate]. Qed.

(** ** [addItem] *)

Lemma strict_eq_num (v : option value) (n : Z) :
  strict_eq v (Some (VNum n)) = true <-> v = Some (VNum n).
Proof.
  destruct v as [[| b | m | s | xs]|]; simpl; split; try discriminate;
    try (intros H; inversion H; fail).
  - intros H. apply Z.eqb_eq in H. by subst.
  - intros H. inversion H. apply Z.eqb_refl.
Qed.

Lemma find_id_None (n : Z) (l : list obj) :
  List.find (fun i => strict_eq (i !! "tmdbId") (Some (VNum n))) l = None
  <-> Forall (fun i => ~ has_id n i) l.
Proof.
  induction l as [|i l IH]; simpl.
  - split; [constructor | reflexivity].
  - destruct (strict_eq (i !! "tmdbId") (Some (VNum n))) eqn:E.
    + split; [discriminate |].
      intros H. inversion H as [|? ? Hi _]. exfalso. apply Hi.
      by apply strict_eq_num.
    + rewrite IH. split.
      * intros H. constructor; [|exact H].
        intros Hi. apply strict_eq_num in Hi. unfold has_id in *. congruence.
      * intros H. by inversion H.
Qed.

Lemma find_id_Some (n : Z) (l : list obj) :
  Exists (has_id n) l ->
  exists i, List.find (fun i => strict_eq (i !! "tmdbId") (Some (VNum n))) l = Some i.
Proof.
  intros H.
  destruct (List.find _ l) as [i|] eqn:E; [by exists i|].
  apply find_id_None in E. exfalso.
  apply Exists_exists in H as (i & Hin & Hi).
  rewrite Forall_forall in E. exact (E i Hin Hi).
Qed.

Lemma new_item_fields (item : obj) (t : Z) :
  new_item item t !! "watched" = Some (VBool false)
  /\ new_item item t !! "rating" = Some VNull
  /\ new_item item t !! "notes" = Some (VStr "")
  /\ new_item item t !! "addedAt" = Some (VNum t)
  /\ (forall f, ~ In f user_fields_of_new -> new_item item t !! f = item !! f).
Proof.
  unfold new_item. repeat split; try by simplify_map_eq.
  intros f Hf. simpl in Hf.
  rewrite !lookup_insert_ne; [done | | | |]; intros <-; apply Hf; tauto.
Qed.

(** Claim C2, as amended.  For a candidate whose [tmdbId] is the integer
    [n]: if no identity is bound, or the cached collection of the category
    holds a record with that id, [addItem] returns [false] and leaves
    everything as it was (no request is sent, the cache is unchanged).
    Otherwise it sends exactly one [setDoc], whose document has the fields
    of the candidate with [watched = false], [rating = null], [notes] empty
    and [addedAt] the current time, and it does not touch the cache; it
    returns [true] when Firestore accepts the write, and when Firestore
    rejects the write it throws the rejection. *)
Theorem addItem_spec (type : media) (item : obj) (n : Z) (w : world)
    (Hid : item !! "tmdbId" = Some (VNum n)) :
  ((uid_truthy (currentUid w) = false \/ Exists (has_id n) (getAll type w)) ->
     addItem type item w = (Ok false, w))
  /\
  (uid_truthy (currentUid w) = true ->
   Forall (fun i => ~ has_id n i) (getAll type w) ->
     let created := new_item item (now w) in
     let w' := snd (addItem type item w) in
     requests w' = requests w ++ [SetDoc (ref type (Some (VNum n)) w) created]
     /\ (forall t, getAll t w' = getAll t w)
     /\ (firestore_accepts w (length (requests w)) = true ->
         fst (addItem type item w) = Ok true)
     /\ (firestore_accepts w (length (requests w)) = false ->
         fst (addItem type item w) = Throw (FirebaseError "unavailable"))
     /\ created !! "watched" = Some (VBool false)
     /\ created !! "rating" = Some VNull
     /\ created !! "notes" = Some (VStr "")
     /\ created !! "addedAt" = Some (VNum (now w))
     /\ (forall f, ~ In f user_fields_of_new -> created !! f = item !! f)).
Proof.
  split.
  - intros H. unfold addItem, bind, get_world, ret. rewrite Hid.
    destruct (uid_truthy (currentUid w)) eqn:Hu; simpl; [|reflexivity].
    destruct H as [H|H]; [discriminate|].
    destruct (find_id_Some n _ H) as [i ->]. reflexivity.
  - intros Hu Hfresh created w'.
    apply find_id_None in Hfresh.
    assert (Hrun : addItem type item w =
      if firestore_accepts w (length (requests w)) then
        (Ok true, set_remote (<[ref type (Some (VNum n)) w := created]> (remote w))
                    (requests w ++ [SetDoc (ref type (Some (VNum n)) w) created])
                    (set_remote (remote w)
                       (requests w ++ [SetDoc (ref type (Some (VNum n)) w) created]) w))
      else
        (Throw (FirebaseError "unavailable"),
         set_remote (remote w)
           (requests w ++ [SetDoc (ref type (Some (VNum n)) w) created]) w)).
    { unfold addItem, bind, get_world, ret. rewrite Hid, Hu, Hfresh. simpl.
      unfold setDoc, send.
      destruct (firestore_accepts w (length (requests w))); reflexivity. }
    subst w'. rewrite Hrun.
    destruct (new_item_fields item (now w)) as (H1 & H2 & H3 & H4 & H5).
    destruct (firestore_accepts w (length (requests w))); simpl;
      (split; [reflexivity|]); (split; [intros []; reflexivity|]);
      (split; [try reflexivity; discriminate|]);
      (split; [try reflexivity; discriminate|]); auto.
Qed.

Lemma addItem_spec_witness :
  addItem movie film alice_with_film = (Ok false, alice_with_film)
  /\ fst (addItem movie heat alice_with_film) = Ok true
  /\ requests (snd (addItem movie heat alice_with_film)) =
       [SetDoc "users/alice/movie/949" (new_item heat 1700000000000)].
Proof.
  split; [| split].
  - apply (proj1 (addItem_spec movie film 603 alice_with_film eq_refl)).
    right. apply Exists_cons_hd. reflexivity.
  - apply (proj2 (addItem_spec movie heat 949 alice_with_film eq_refl)).
    + reflexivity.
    + repeat constructor. discriminate.
    + reflexivity.
  - apply (proj2 (addItem_spec movie heat 949 alice_with_film eq_refl)).
    + reflexivity.
    + repeat constructor. discriminate.
Defined.

(** Claim C2 as stated fails: alice is bound, her cached collection does
    not hold the candidate, and Firestore rejects the create; [addItem]
    sends the create and throws, it returns no truthy result. *)
Lemma addItem_rejected_write_throws :
  uid_truthy (currentUid alice_offline) = true
  /\ Forall (fun i => ~ has_id 949 i) (getAll movie alice_offline)
  /\ requests (snd (addItem movie heat alice_offline)) =
       [SetDoc "users/alice/movie/949" (new_item heat 1700000000000)]
  /\ fst (addItem movie heat alice_offline) = Throw (FirebaseError "unavailable")
  /\ fst (addItem movie heat alice_offline) <> Ok true.
Proof.
  assert (Hthrow : fst (addItem movie heat alice_offline)
                   = Throw (FirebaseError "unavailable")) by (vm_compute; reflexivity).
  split; [vm_compute; reflexivity|]. split; [|split; [|split]].
  - assert (E : getAll movie alice_offline = [film]) by (vm_compute; reflexivity).
    rewrite E. repeat constructor. unfold has_id. vm_compute. discriminate.
  - vm_compute. reflexivity.
  - exact Hthrow.
  - rewrite Hthrow. discriminate.
Qed.

End StoreFacts.

Module BackfillFacts.
Import Js Env Store Tmdb App BackfillSpec.

(** *** The patch is a function of the fetched details *)

Lemma backfill_updates_lookup (d : obj) (f : string) :
  backfill_updates d !! f =
    if decide (f = "tmdbRating") then
      (if nullish (d !! "tmdbRating") then None else d !! "tmdbRating")
    else if decide (f = "genres") then
      (if has_length (d !! "genres") then d !! "genres" else None)
    else if decide (f = "genreIds") then
      (if has_length (d !! "genreIds") then d !! "genreIds" else None)
    else if decide (f = "releaseDate") then
      (if is_undefined (d !! "releaseDate") then None
       else or_null (d !! "releaseDate"))
    else None.
Proof.
  unfold backfill_updates.
  destruct (d !! "tmdbRating") as [[| | | |]|];
  destruct (d !! "genres") as [[| | |s1|[|]]|];
  destruct (d !! "genreIds") as [[| | |s2|[|]]|];
  destruct (d !! "releaseDate") as [[| | | |]|]; simpl;
  try destruct (negb (String.eqb s1 "")); try destruct (negb (String.eqb s2 ""));
  simpl; repeat case_decide; simplify_map_eq; reflexivity.
Qed.

Lemma backfill_updates_descriptive (d : obj) (f : string) :
  ~ In f backfilled -> backfill_updates d !! f = None.
Proof.
  intros Hf. rewrite backfill_updates_lookup.
  repeat case_decide; try reflexivity; subst; exfalso; apply Hf; simpl; tauto.
Qed.

Lemma backfill_updates_user_owned (d : obj) (f : string) :
  In f user_owned -> backfill_updates d !! f = None.
Proof.
  intros Hf. apply backfill_updates_descriptive.
  simpl in *. intros H.
  repeat (destruct Hf as [<-|Hf]; [repeat (destruct H as [H|H]; [discriminate|]); exact H|]).
  exact Hf.
Qed.

(** *** What one run changes *)

Lemma frame_refl (w : world) : frame w w.
Proof.
  split; try reflexivity.
  exists []. split; [by rewrite app_nil_r | constructor].
Qed.

Lemma frame_trans (w1 w2 w3 : world) : frame w1 w2 -> frame w2 w3 -> frame w1 w3.
Proof.
  intros [m1 t1 u1 d1 (n1 & r1 & F1) f1] [m2 t2 u2 d2 (n2 & r2 & F2) f2].
  split; try congruence.
  - exists (n1 ++ n2). split; [rewrite r2, r1; by rewrite app_assoc|].
    apply Forall_app. split; [exact F1|].
    eapply Forall_impl; [exact F2|].
    intros r (path & k & d & Hk & ->). exists path, k, d. split; congruence.
  - intros path f Hf. rewrite f2, f1; auto.
Qed.

Lemma frame_calls (w : world) (cs : list catalog_call) :
  frame w (set_catalog_calls cs w).
Proof.
  split; try reflexivity.
  exists []. split; [by rewrite app_nil_r | constructor].
Qed.

Lemma patchItem_frame (type : media) (id : option value) (d : obj) (k : nat) (w : world) :
  catalog_details w k = Ok d ->
  exists o, frame w (snd (patchItem type id (backfill_updates d) w))
            /\ catalog_calls (snd (patchItem type id (backfill_updates d) w)) = catalog_calls w
            /\ fst (patchItem type id (backfill_updates d) w) = o.
Proof.
  intros Hk. eexists. split; [|split; [|reflexivity]].
  - unfold patchItem, bind, get_world, ret.
    destruct (uid_truthy (currentUid w)); simpl; [|apply frame_refl].
    unfold updateDoc, send.
    set (path := ref type id w).
    assert (Hreq : from_details w (UpdateDoc path (backfill_updates d))).
    { exists path, k, d. by split. }
    destruct (firestore_accepts w (length (requests w)));
      [destruct (remote w !! path) as [old|] eqn:Hold|]; simpl.
    + split; try reflexivity; simpl.
      * exists [UpdateDoc path (backfill_updates d)]. split; [reflexivity|].
        by constructor.
      * intros p f Hf. unfold field; simpl.
        destruct (decide (p = path)) as [->|Hne].
        -- rewrite lookup_insert_eq, Hold. simpl.
           rewrite lookup_union_r; [reflexivity|].
           by apply backfill_updates_user_owned.
        -- by rewrite lookup_insert_ne.
    + split; try reflexivity; simpl.
      exists [UpdateDoc path (backfill_updates d)]. split; [reflexivity|].
      by constructor.
    + split; try reflexivity; simpl.
      exists [UpdateDoc path (backfill_updates d)]. split; [reflexivity|].
      by constructor.
  - unfold patchItem, bind, get_world, ret.
    destruct (uid_truthy (currentUid w)); simpl; [|reflexivity].
    unfold updateDoc, send.
    destruct (firestore_accepts w (length (requests w)));
      [destruct (remote w !! _)|]; reflexivity.
Qed.

Lemma backfill_item_effect (type : media) (item : obj) (w : world) :
  exists w',
    backfill_item type item w = (Ok tt, w')
    /\ frame w w'
    /\ catalog_calls w' = catalog_calls w ++ [detail_call type item].
Proof.
  unfold backfill_item, try_catch, bind.
  assert (Hget : getDetails type (item !! "tmdbId") w =
            (catalog_details w (length (catalog_calls w)),
             set_catalog_calls (catalog_calls w ++ [detail_call type item]) w)).
  { destruct type; reflexivity. }
  rewrite Hget.
  set (w1 := set_catalog_calls _ w).
  assert (F1 : frame w w1) by apply frame_calls.
  destruct (catalog_details w (length (catalog_calls w))) as [d|e] eqn:Hd.
  - destruct (negb (Nat.eqb (size (backfill_updates d)) 0)).
    + destruct (patchItem_frame type (item !! "tmdbId") d (length (catalog_calls w)) w1 Hd)
        as (o & F2 & C2 & Ho).
      destruct (patchItem type (item !! "tmdbId") (backfill_updates d) w1) as [[[]|e] w2];
        simpl in *; eexists; (split; [reflexivity|]);
        (split; [eapply frame_trans; eauto | exact C2]).
    + eexists. split; [reflexivity|]. split; [exact F1 | reflexivity].
  - eexists. split; [reflexivity|]. split; [exact F1 | reflexivity].
Qed.

Lemma for_each_backfill_effect (type : media) (items : list obj) (w : world) :
  exists w',
    for_each (backfill_item type) items w = (Ok tt, w')
    /\ frame w w'
    /\ catalog_calls w' = catalog_calls w ++ map (detail_call type) items.
Proof.
  revert w. induction items as [|i items IH]; intros w; simpl.
  - exists w. split; [reflexivity|]. split; [apply frame_refl | by rewrite app_nil_r].
  - unfold bind.
    destruct (backfill_item_effect type i w) as (w1 & -> & F1 & C1).
    destruct (IH w1) as (w2 & -> & F2 & C2).
    exists w2. split; [reflexivity|]. split; [eapply frame_trans; eauto|].
    rewrite C2, C1. by rewrite <- app_assoc.
Qed.

Lemma backfillMissingData_effect (w : world) :
  exists w',
    backfillMissingData w = (Ok tt, w')
    /\ frame w w'
    /\ catalog_calls w' =
         catalog_calls w
         ++ map (detail_call movie) (List.filter needs_backfill (getAll movie w))
         ++ map (detail_call tv) (List.filter needs_backfill (getAll tv w)).
Proof.
  unfold backfillMissingData, backfill_type, bind, get_world.
  destruct (for_each_backfill_effect movie
              (List.filter needs_backfill (getAll movie w)) w) as (w1 & -> & F1 & C1).
  destruct (for_each_backfill_effect tv
              (List.filter needs_backfill (getAll tv w1)) w1) as (w2 & -> & F2 & C2).
  exists w2. split; [reflexivity|]. split; [eapply frame_trans; eauto|].
  rewrite C2, C1. simpl. rewrite (fr_tv _ _ F1). by rewrite <- app_assoc.
Qed.

(** *** The patches that are sent *)

Lemma patches_from_ext (w w1 : world) (type : media) (k : nat) (items : list obj) :
  currentUid w1 = currentUid w -> catalog_details w1 = catalog_details w ->
  patches_from w1 type k items = patches_from w type k items.
Proof.
  intros Hu Hd. revert k. induction items as [|i items IH]; intros k; simpl.
  - reflexivity.
  - rewrite IH, Hd. f_equal.
    unfold patch_of, ref. by rewrite Hu.
Qed.

Lemma backfill_item_requests (type : media) (item : obj) (w : world) :
  requests (snd (backfill_item type item w)) =
    requests w ++ patch_of w type item (catalog_details w (length (catalog_calls w))).
Proof.
  unfold backfill_item, try_catch, bind.
  assert (Hget : getDetails type (item !! "tmdbId") w =
            (catalog_details w (length (catalog_calls w)),
             set_catalog_calls (catalog_calls w ++ [detail_call type item]) w)).
  { destruct type; reflexivity. }
  rewrite Hget. unfold patch_of.
  destruct (catalog_details w (length (catalog_calls w))) as [d|e]; simpl;
    [|by rewrite app_nil_r].
  destruct (negb (Nat.eqb (size (backfill_updates d)) 0)); simpl;
    [|by rewrite andb_false_r, app_nil_r].
  rewrite andb_true_r.
  unfold patchItem, bind, get_world, ret; simpl.
  destruct (uid_truthy (currentUid w)); simpl; [|by rewrite app_nil_r].
  unfold updateDoc, send; simpl.
  destruct (firestore_accepts w (length (requests w)));
    [destruct (remote w !! _)|]; reflexivity.
Qed.

Lemma for_each_backfill_requests (type : media) (items : list obj) (w : world) :
  requests (snd (for_each (backfill_item type) items w)) =
    requests w ++ patches_from w type (length (catalog_calls w)) items.
Proof.
  revert w. induction items as [|i items IH]; intros w; simpl.
  - by rewrite app_nil_r.
  - unfold bind.
    pose proof (backfill_item_requests type i w) as Hr.
    destruct (backfill_item_effect type i w) as (w1 & E & F1 & C1).
    rewrite E in *. simpl in Hr.
    rewrite IH, Hr, C1, length_app. simpl.
    rewrite (patches_from_ext w w1) by (apply F1).
    rewrite Nat.add_1_r. by rewrite <- app_assoc.
Qed.

(** Claim C3.  Whatever the catalog answers, the object [updates] holds
    none of [watched], [watchedAt], [rating], [notes]; [backfillMissingData]
    completes, every request it sends is an [updateDoc] without these
    fields, and afterwards these fields of every remote document, and the
    cached collections, are what they were before. *)
Theorem backfill_keeps_user_owned_fields (w : world) :
  (forall details f, In f user_owned -> backfill_updates details !! f = None)
  /\ exists w',
      backfillMissingData w = (Ok tt, w')
      /\ (exists new,
            requests w' = requests w ++ new
            /\ Forall (fun r => exists path updates,
                          r = UpdateDoc path updates
                          /\ forall f, In f user_owned -> updates !! f = None) new)
      /\ (forall path f, In f user_owned -> field path f w' = field path f w)
      /\ (forall type, getAll type w' = getAll type w).
Proof.
  split; [intros; by apply backfill_updates_user_owned|].
  destruct (backfillMissingData_effect w) as (w' & E & F & _).
  exists w'. split; [exact E|]. split; [|split].
  - destruct (fr_requests _ _ F) as (new & Hn & Hall).
    exists new. split; [exact Hn|].
    eapply Forall_impl; [exact Hall|].
    intros r (path & k & d & _ & ->). exists path, (backfill_updates d).
    split; [reflexivity|]. intros f Hf. by apply backfill_updates_user_owned.
  - apply F.
  - intros []; simpl; apply F.
Qed.

(** Claim C8, as amended.  [backfillMissingData] fetches the details of
    exactly the cached records that miss a descriptive field (no catalog
    score, no genres, undefined release date, no genre codes), the movies
    first and in the order of the cache.  The patch sent for such a record
    is a function of the fetched details alone: it holds the catalog score
    when the details have one, the genres and the genre codes when the
    details have some, and the release date when the details define it,
    whether or not the record already had the field; it holds no other
    field, and no patch is sent when it would be empty, when the fetch
    failed or when no identity is bound. *)
Theorem backfill_patches_what_details_provide (w : world) :
  (forall details f,
     backfill_updates details !! f =
       if decide (f = "tmdbRating") then
         (if nullish (details !! "tmdbRating") then None else details !! "tmdbRating")
       else if decide (f = "genres") then
         (if has_length (details !! "genres") then details !! "genres" else None)
       else if decide (f = "genreIds") then
         (if has_length (details !! "genreIds") then details !! "genreIds" else None)
       else if decide (f = "releaseDate") then
         (if is_undefined (details !! "releaseDate") then None
          else or_null (details !! "releaseDate"))
       else None)
  /\ exists w',
      backfillMissingData w = (Ok tt, w')
      /\ catalog_calls w' =
           catalog_calls w
           ++ map (detail_call movie) (needy movie w)
           ++ map (detail_call tv) (needy tv w)
      /\ requests w' =
           requests w
           ++ patches_from w movie (length (catalog_calls w)) (needy movie w)
           ++ patches_from w tv
                (length (catalog_calls w) + length (needy movie w)) (needy tv w).
Proof.
  split; [intros; apply backfill_updates_lookup|].
  destruct (backfillMissingData_effect w) as (w' & E & F & C).
  exists w'. split; [exact E|]. split; [exact C|].
  assert (R : requests (snd (backfillMissingData w)) = requests w') by (by rewrite E).
  rewrite <- R. clear R E C F.
  unfold backfillMissingData, backfill_type, bind, get_world.
  pose proof (for_each_backfill_requests movie (needy movie w) w) as R1.
  destruct (for_each_backfill_effect movie (needy movie w) w) as (w1 & E1 & F1 & C1).
  fold (needy movie w). rewrite E1 in *. simpl in R1.
  pose proof (for_each_backfill_requests tv (needy tv w1) w1) as R2.
  fold (needy tv w1). 
  destruct (for_each (backfill_item tv) (needy tv w1) w1) as [[[]|e] w2]; simpl in *;
    rewrite R2, R1, C1, length_app, length_map;
    rewrite (patches_from_ext w w1) by (apply F1);
    unfold needy; simpl; rewrite (fr_tv _ _ F1); by rewrite <- app_assoc.
Qed.

(** *** A record with a stale score and no genres *)

Lemma backfill_keeps_user_owned_fields_witness :
  field "users/alice/movie/603" "rating" (snd (backfillMissingData stale_world))
    = Some (VNum 5).
Proof.
  destruct (backfill_keeps_user_owned_fields stale_world)
    as (_ & w' & E & _ & Hf & _).
  rewrite E. simpl. rewrite Hf; [reflexivity | simpl; tauto].
Defined.

(** Claim C8 as stated fails: the cached record has a catalog score (70) and
    misses only its genres, and the patch still carries the score of the
    fetched details (82) and overwrites it. *)
Lemma backfill_overwrites_present_score :
  matrix_stale !! "tmdbRating" = Some (VNum 70)
  /\ needs_backfill matrix_stale = true
  /\ requests (snd (backfillMissingData stale_world)) =
       [UpdateDoc "users/alice/movie/603"
          {[ "tmdbRating" := VNum 82; "releaseDate" := VStr "1999-03-31";
             "genres" := VArr [VStr "Action"; VStr "Science Fiction"];
             "genreIds" := VArr [VNum 28; VNum 878] ]}]
  /\ field "users/alice/movie/603" "tmdbRating" (snd (backfillMissingData stale_world))
       = Some (VNum 82).
Proof. repeat split; vm_compute; reflexivity. Qed.

Lemma backfill_patches_what_details_provide_witness :
  requests (snd (backfillMissingData stale_world)) =
    [UpdateDoc "users/alice/movie/603" (backfill_updates matrix_details)].
Proof.
  destruct (backfill_patches_what_details_provide stale_world)
    as (_ & w' & E & _ & R).
  rewrite E. simpl. rewrite R. reflexivity.
Defined.

End BackfillFacts.

Module ResolveFacts.
Import Js Env Store Tmdb App ResolveSpec.








End ResolveFacts.

Module AiFacts.
Import Ai AiSpec.
Open Scope Z_scope.

(** *** Properties of [props] *)

Lemma get_prop_update (k k' : string) (v : Z) (o : props) :
  get_prop k' (update_prop k v o) =
    if String.eqb k k' then (match get_prop k o with Some _ => Some v | None => None end)
    else get_prop k' o.
Proof.
  induction o as [|[e x] o IH]; simpl.
  - by destruct (String.eqb k k').
  - destruct (String.eqb e k) eqn:E; simpl.
    + apply String.eqb_eq in E. subst e.
      destruct (String.eqb k k'); reflexivity.
    + destruct (String.eqb e k') eqn:E'; [|exact IH].
      apply String.eqb_eq in E'. subst e. by rewrite String.eqb_sym, E.
Qed.

Lemma get_prop_insert_index (k k' : string) (n : N) (v : Z) (o : props) :
  get_prop k o = None ->
  get_prop k' (insert_index k n v o) =
    if String.eqb k k' then Some v else get_prop k' o.
Proof.
  induction o as [|[e x] o IH]; simpl; intros Hk.
  - reflexivity.
  - destruct (String.eqb e k) eqn:E; [discriminate|].
    destruct (array_index e) as [m|]; [destruct (n <? m)%N|]; simpl; try reflexivity.
    rewrite (IH Hk).
    destruct (String.eqb e k') eqn:E'; [|reflexivity].
    apply String.eqb_eq in E'. subst e. by rewrite String.eqb_sym, E.
Qed.

Lemma get_prop_app (k : string) (o1 o2 : props) :
  get_prop k (o1 ++ o2) =
    match get_prop k o1 with Some x => Some x | None => get_prop k o2 end.
Proof.
  induction o1 as [|[e x] o1 IH]; simpl; [reflexivity|].
  by destruct (String.eqb e k).
Qed.

Lemma get_prop_set_prop (k k' : string) (v : Z) (o : props) :
  get_prop k' (set_prop k v o) = if String.eqb k k' then Some v else get_prop k' o.
Proof.
  unfold set_prop. destruct (get_prop k o) as [x|] eqn:Hk.
  - rewrite get_prop_update, Hk. reflexivity.
  - destruct (array_index k) as [n|].
    + by apply get_prop_insert_index.
    + rewrite get_prop_app. simpl.
      destruct (String.eqb k k') eqn:E.
      * apply String.eqb_eq in E. subst k'. by rewrite Hk.
      * by destruct (get_prop k' o).
Qed.

Lemma get_prop_None (k : string) (o : props) :
  get_prop k o = None <-> ~ In k (map fst o).
Proof.
  induction o as [|[e x] o IH]; simpl.
  - tauto.
  - destruct (String.eqb e k) eqn:E.
    + apply String.eqb_eq in E. split; [discriminate | tauto].
    + apply String.eqb_neq in E. rewrite IH. tauto.
Qed.


Lemma keys_update (k : string) (v : Z) (o : props) :
  map fst (update_prop k v o) = map fst o.
Proof.
  induction o as [|[e x] o IH]; simpl; [reflexivity|].
  destruct (String.eqb e k); simpl; congruence.
Qed.

Lemma keys_insert_index (k : string) (n : N) (v : Z) (o : props) :
  Permutation (map fst (insert_index k n v o)) (k :: map fst o).
Proof.
  induction o as [|[e x] o IH]; simpl; [reflexivity|].
  destruct (array_index e) as [m|]; [destruct (n <? m)%N|]; simpl; try reflexivity.
  rewrite IH. apply perm_swap.
Qed.

Lemma keys_set_prop_NoDup (k : string) (v : Z) (o : props) :
  NoDup (map fst o) -> NoDup (map fst (set_prop k v o)).
Proof.
  intros Hnd. unfold set_prop. destruct (get_prop k o) as [x|] eqn:Hk.
  - by rewrite keys_update.
  - apply get_prop_None in Hk.
    assert (Hk' : k ∉ map fst o) by (by rewrite list_elem_of_In).
    destruct (array_index k) as [n|].
    + rewrite keys_insert_index. by apply NoDup_cons.
    + rewrite map_app. simpl. apply NoDup_app. split; [exact Hnd|].
      split; [|apply NoDup_singleton].
      intros g Hg Hg'. apply list_elem_of_singleton in Hg'. by subst g.
Qed.


(** *** The sort *)

Lemma insert_sorted_Permutation {A} (cmp : A -> A -> Z) (x : A) (l : list A) :
  Permutation (insert_sorted cmp x l) (x :: l).
Proof.
  induction l as [|y l IH]; simpl; [reflexivity|].
  destruct (cmp x y <=? 0); [reflexivity|].
  rewrite IH. apply perm_swap.
Qed.

Lemma sort_Permutation {A} (cmp : A -> A -> Z) (l : list A) :
  Permutation (sort cmp l) l.
Proof.
  induction l as [|x l IH]; simpl; [reflexivity|].
  rewrite insert_sorted_Permutation. by constructor.
Qed.

Lemma sort_ext {A} (cmp cmp' : A -> A -> Z) (l : list A) :
  (forall a b, cmp a b = cmp' a b) -> sort cmp l = sort cmp' l.
Proof.
  intros H. induction l as [|x l IH]; simpl; [reflexivity|].
  rewrite IH. generalize (sort cmp' l). intros m.
  induction m as [|y m IHm]; simpl; [reflexivity|].
  by rewrite H, IHm.
Qed.

Lemma insert_sorted_map {A B} (f : A -> B) (cmp : B -> B -> Z) (x : A) (l : list A) :
  insert_sorted cmp (f x) (map f l) =
    map f (insert_sorted (fun a b => cmp (f a) (f b)) x l).
Proof.
  induction l as [|y l IH]; simpl; [reflexivity|].
  destruct (cmp (f x) (f y) <=? 0); simpl; [reflexivity|]. by rewrite IH.
Qed.

Lemma sort_map {A B} (f : A -> B) (cmp : B -> B -> Z) (l : list A) :
  sort cmp (map f l) = map f (sort (fun a b => cmp (f a) (f b)) l).
Proof.
  induction l as [|x l IH]; simpl; [reflexivity|].
  by rewrite IH, insert_sorted_map.
Qed.

Section ByKey.
Context {A : Type} (key : A -> Z).

Lemma insert_sorted_desc (x : A) (l : list A) :
  StronglySorted (ge_key key) l -> StronglySorted (ge_key key) (insert_sorted (desc key) x l).
Proof.
  induction l as [|y l IH]; simpl; intros Hs.
  - repeat constructor.
  - apply StronglySorted_inv in Hs as [Hs Hy].
    destruct ((desc key) x y <=? 0) eqn:E.
    + apply Z.leb_le in E. unfold desc in E.
      constructor; [by constructor|].
      constructor; [unfold ge_key; lia|].
      eapply Forall_impl; [exact Hy|]. unfold ge_key. intros z Hz. lia.
    + apply Z.leb_gt in E. unfold desc in E.
      constructor; [by apply IH|].
      rewrite insert_sorted_Permutation.
      constructor; [unfold ge_key; lia | exact Hy].
Qed.

Lemma sort_desc_sorted (l : list A) : StronglySorted (ge_key key) (sort (desc key) l).
Proof.
  induction l as [|x l IH]; simpl; [constructor|]. by apply insert_sorted_desc.
Qed.

(** Stability: the entries with one and the same key keep their order. *)
Lemma insert_sorted_desc_filter (v : Z) (x : A) (l : list A) :
  List.filter (fun a => key a =? v) (insert_sorted (desc key) x l) =
  List.filter (fun a => key a =? v) (x :: l).
Proof.
  induction l as [|y l IH]; simpl; [reflexivity|].
  destruct ((desc key) x y <=? 0) eqn:E; [reflexivity|].
  apply Z.leb_gt in E. unfold desc in E. simpl. rewrite IH. simpl.
  destruct (key x =? v) eqn:Ex, (key y =? v) eqn:Ey; try reflexivity.
  apply Z.eqb_eq in Ex, Ey. lia.
Qed.

Lemma sort_desc_stable (v : Z) (l : list A) :
  List.filter (fun a => key a =? v) (sort (desc key) l) =
  List.filter (fun a => key a =? v) l.
Proof.
  induction l as [|x l IH]; simpl; [reflexivity|].
  rewrite insert_sorted_desc_filter. simpl. by rewrite IH.
Qed.

End ByKey.


(** *** Accumulating the scores *)

Lemma acc_app (o : props) (L1 L2 : list (string * Z)) :
  acc o (L1 ++ L2) = acc (acc o L1) L2.
Proof. apply fold_left_app. Qed.

Lemma forEach_acc (ws : list item) (o : props) :
  fold_left (fun o i => fold_left (add_score (weight i)) (genres_of i) o) ws o
  = acc o (scored ws).
Proof.
  revert o. induction ws as [|i ws IH]; intros o; simpl; [reflexivity|].
  rewrite acc_app, IH. f_equal.
  generalize (genres_of i). intros gs. revert o.
  induction gs as [|g gs IHg]; intros o; simpl; [reflexivity|]. apply IHg.
Qed.

Lemma genreScore_acc (ws : list item) : genreScore ws = acc [] (scored ws).
Proof. apply forEach_acc. Qed.

Lemma get_acc (g : string) (L : list (string * Z)) (o : props) :
  get_prop g (acc o L) =
    match get_prop g o with
    | Some x => Some (x + total g L)
    | None => if seen g L then Some (total g L) else None
    end.
Proof.
  revert o. induction L as [|[g' w] L IH]; intros o; simpl.
  - destruct (get_prop g o); [f_equal; lia | reflexivity].
  - rewrite IH. unfold add_score. simpl. rewrite get_prop_set_prop.
    destruct (String.eqb g' g) eqn:E.
    + apply String.eqb_eq in E. subst g'.
      destruct (get_prop g o); simpl; f_equal; lia.
    + destruct (get_prop g o); simpl; [f_equal; lia | reflexivity].
Qed.

Lemma acc_NoDup (L : list (string * Z)) (o : props) :
  NoDup (map fst o) -> NoDup (map fst (acc o L)).
Proof.
  revert o. induction L as [|[g w] L IH]; intros o Hnd; simpl; [exact Hnd|].
  apply IH. unfold add_score. by apply keys_set_prop_NoDup.
Qed.






Lemma genreScore_NoDup (ws : list item) : NoDup (map fst (genreScore ws)).
Proof. rewrite genreScore_acc. apply acc_NoDup. constructor. Qed.



(** *** The four lists *)

Lemma filter_filter_andb {A} (f g : A -> bool) (l : list A) :
  List.filter f (List.filter g l) = List.filter (fun x => g x && f x) l.
Proof.
  induction l as [|x l IH]; simpl; [reflexivity|].
  destruct (g x); simpl; [destruct (f x)|]; by rewrite IH.
Qed.

Lemma loved_filter (trim : string -> string) (items : list item) (notes : string) :
  loved (buildTasteProfile trim items notes) = map loved_of (List.filter is_loved items).
Proof.
  simpl. rewrite filter_filter_andb. reflexivity.
Qed.

Lemma liked_filter (trim : string -> string) (items : list item) (notes : string) :
  liked (buildTasteProfile trim items notes) = map liked_of (List.filter is_liked items).
Proof.
  simpl. rewrite filter_filter_andb. reflexivity.
Qed.

Lemma watchedUnrated_filter (trim : string -> string) (items : list item) (notes : string) :
  Forall valid_rating items ->
  watchedUnrated (buildTasteProfile trim items notes)
  = map title (List.filter is_watchedUnrated items).
Proof.
  intros Hvalid. simpl. rewrite filter_filter_andb. f_equal. apply filter_ext_in.
  intros i Hi. rewrite Forall_forall in Hvalid.
  specialize (Hvalid i (proj2 (list_elem_of_In _ _) Hi)).
  unfold is_watchedUnrated, rating_falsy, valid_rating in *.
  destruct (rating i) as [r|]; [|reflexivity].
  f_equal. apply Z.eqb_neq. lia.
Qed.

Lemma filter_drop_middle {A} (f : A -> bool) (l1 l2 : list A) (x : A) :
  f x = false -> List.filter f (l1 ++ x :: l2) = List.filter f (l1 ++ l2).
Proof. intros H. rewrite !List.filter_app. simpl. by rewrite H. Qed.

(** Claim C6.  For items whose ratings are null or 1 to 5: [loved] is made
    of exactly the watched items rated 4 or more, [liked] of exactly the
    watched items rated 3, [watchedUnrated] holds exactly the titles of the
    watched items without a rating and [watchlist] exactly the titles of
    the items not watched, each in the order of the input; and a watched
    item rated 1 or 2 contributes to none of [loved], [liked],
    [watchedUnrated]: the three lists are the same without it. *)
Theorem profile_lists (trim : string -> string) (items : list item) (notes : string)
    (Hvalid : Forall valid_rating items) :
  let p := buildTasteProfile trim items notes in
  loved p = map loved_of (List.filter is_loved items)
  /\ liked p = map liked_of (List.filter is_liked items)
  /\ watchedUnrated p = map title (List.filter is_watchedUnrated items)
  /\ watchlist p = map title (List.filter is_watchlist items)
  /\ (forall l1 i l2,
        items = l1 ++ i :: l2 ->
        watched i = true ->
        rating i = Some 1 \/ rating i = Some 2 ->
        let q := buildTasteProfile trim (l1 ++ l2) notes in
        loved p = loved q /\ liked p = liked q
        /\ watchedUnrated p = watchedUnrated q).
Proof.
  intros p. subst p.
  split; [apply loved_filter|]. split; [apply liked_filter|].
  split; [by apply watchedUnrated_filter|]. split; [reflexivity|].
  intros l1 i l2 -> Hw Hr q. subst q.
  assert (Hvalid' : Forall valid_rating (l1 ++ l2)).
  { apply Forall_app in Hvalid as [H1 H2]. apply Forall_app. split; [exact H1|].
    by inversion H2. }
  rewrite !loved_filter, !liked_filter, !watchedUnrated_filter by assumption.
  rewrite !filter_drop_middle; [done | | |];
    unfold is_watchedUnrated, is_liked, is_loved; rewrite Hw;
    destruct Hr as [-> | ->]; reflexivity.
Qed.

Lemma shelf_valid : Forall valid_rating shelf.
Proof. repeat constructor; unfold valid_rating; simpl; lia. Qed.

Lemma profile_lists_witness :
  let p := buildTasteProfile (fun s => s) shelf "" in
  map loved_title (loved p) = ["Heat"]
  /\ map liked_title (liked p) = ["Fargo"]
  /\ watchedUnrated p = ["Dune"]
  /\ watchlist p = ["Alien"].
Proof.
  destruct (profile_lists (fun s => s) shelf "" shelf_valid)
    as (H1 & H2 & H3 & H4 & _).
  cbv zeta. rewrite H1, H2, H3, H4. repeat split.
Defined.

(** *** Permuting the items *)




(** *** The ranking of the genres *)

Lemma existsb_keys (g : string) (o : props) :
  existsb (String.eqb g) (map fst o) =
    match get_prop g o with Some _ => true | None => false end.
Proof.
  induction o as [|[e x] o IH]; simpl; [reflexivity|].
  rewrite (String.eqb_sym g e). by destruct (String.eqb e g).
Qed.

Lemma keys_acc (L : list (string * Z)) (o : props) :
  Forall (fun gw => array_index (fst gw) = None) L ->
  map fst (acc o L) = first_seen_from (map fst o) (map fst L).
Proof.
  revert o. induction L as [|[g w] L IH]; intros o Hall; simpl; [reflexivity|].
  apply Forall_cons in Hall as [Hg Hall]. simpl in Hg.
  rewrite (IH _ Hall). f_equal.
  unfold add_score, set_prop. rewrite existsb_keys.
  destruct (get_prop g o); [apply keys_update|].
  rewrite Hg, map_app. reflexivity.
Qed.

Lemma props_as_map (o : props) :
  NoDup (map fst o) ->
  o = map (fun k => (k, default 0 (get_prop k o))) (map fst o).
Proof.
  induction o as [|[e x] o IH]; simpl; intros Hnd; [reflexivity|].
  apply NoDup_cons in Hnd as [He Hnd].
  rewrite String.eqb_refl. simpl. f_equal.
  rewrite (IH Hnd) at 1. apply map_ext_in.
  intros k Hk. destruct (String.eqb e k) eqn:E; [|reflexivity].
  apply String.eqb_eq in E. subst k. exfalso. apply He. by apply list_elem_of_In.
Qed.

Lemma total_unseen (g : string) (L : list (string * Z)) :
  seen g L = false -> total g L = 0.
Proof.
  induction L as [|[g' w] L IH]; simpl; [reflexivity|].
  intros H. apply orb_false_iff in H as [H1 H2]. rewrite H1, (IH H2). reflexivity.
Qed.

Lemma genreScore_default (ws : list item) (g : string) :
  default 0 (get_prop g (genreScore ws)) = total g (scored ws).
Proof.
  rewrite genreScore_acc, get_acc. simpl.
  destruct (seen g (scored ws)) eqn:E; [reflexivity|]. simpl.
  symmetry. by apply total_unseen.
Qed.

Lemma scored_names (ws : list item) : map fst (scored ws) = flat_map genres_of ws.
Proof.
  induction ws as [|i ws IH]; simpl; [reflexivity|].
  rewrite map_app, IH. f_equal. rewrite map_map. simpl. apply map_id.
Qed.

Lemma seen_In (g : string) (L : list (string * Z)) :
  seen g L = true <-> In g (map fst L).
Proof.
  unfold seen. rewrite existsb_exists. split.
  - intros ([g' w] & Hin & E). apply String.eqb_eq in E. simpl in E. subst g'.
    apply in_map_iff. by exists (g, w).
  - intros H. apply in_map_iff in H as ([g' w] & E & Hin). simpl in E. subst g'.
    exists (g, w). split; [exact Hin | apply String.eqb_refl].
Qed.

Lemma first_seen_from_In (g : string) (names ks : list string) :
  In g (first_seen_from ks names) <-> In g ks \/ In g names.
Proof.
  revert ks. induction names as [|n names IH]; intros ks; simpl; [tauto|].
  rewrite IH. destruct (existsb (String.eqb n) ks) eqn:E.
  - apply existsb_exists in E as (k & Hk & E). apply String.eqb_eq in E. subst k.
    split; [tauto|]. intros [H|[<-|H]]; tauto.
  - rewrite in_app_iff. simpl. tauto.
Qed.

Lemma first_seen_In (g : string) (names : list string) :
  In g (first_seen names) <-> In g names.
Proof. unfold first_seen. rewrite first_seen_from_In. simpl. tauto. Qed.

(** The entries of [genreScore], when no genre is named like an array
    index: the names in the order of their first occurrence, each with the
    sum of its weights. *)
Lemma genreScore_entries (ws : list item) :
  Forall (fun gw => array_index (fst gw) = None) (scored ws) ->
  genreScore ws =
    map (fun g => (g, total g (scored ws))) (first_seen (flat_map genres_of ws)).
Proof.
  intros Hall.
  assert (Hk : map fst (genreScore ws) = first_seen (flat_map genres_of ws)).
  { rewrite genreScore_acc, (keys_acc _ _ Hall). simpl. by rewrite scored_names. }
  rewrite (props_as_map (genreScore ws) (genreScore_NoDup ws)) at 1.
  rewrite Hk. apply map_ext. intros g. by rewrite genreScore_default.
Qed.

(** *** The scores in the words of the specification *)

Lemma total_app (g : string) (L1 L2 : list (string * Z)) :
  total g (L1 ++ L2) = total g L1 + total g L2.
Proof.
  induction L1 as [|[g' w] L1 IH]; simpl; [reflexivity|]. rewrite IH. lia.
Qed.

Lemma total_one_item (g : string) (w : Z) (gs : list string) :
  total g (map (fun g' => (g', w)) gs)
  = w * Z.of_nat (length (List.filter (String.eqb g) gs)).
Proof.
  induction gs as [|g' gs IH]; simpl; [lia|].
  rewrite IH, (String.eqb_sym g g'). destruct (String.eqb g' g); simpl; lia.
Qed.

Lemma weight_valid (i : item) : valid_rating i -> weight i = stars_or_3 i.
Proof.
  unfold valid_rating, weight, stars_or_3. destruct (rating i) as [r|]; [|reflexivity].
  intros H. destruct (r =? 0) eqn:E; [|reflexivity]. apply Z.eqb_eq in E. lia.
Qed.

Lemma total_scored (ws : list item) (g : string) :
  Forall valid_rating ws ->
  total g (scored ws) = sum_over (fun i => stars_or_3 i * occurrences g i) ws.
Proof.
  induction 1 as [|i ws Hi _ IH]; simpl; [reflexivity|].
  rewrite total_app, total_one_item, IH, (weight_valid i Hi). reflexivity.
Qed.

Lemma Forall_filter_watched (P : item -> Prop) (items : list item) :
  Forall P items -> Forall P (List.filter watched items).
Proof.
  induction 1 as [|i l Hi _ IH]; simpl; [constructor|].
  destruct (watched i); [by constructor | exact IH].
Qed.

(** Claim C4, as amended.  For items whose ratings are null or 1 to 5 and
    whose genres are not named like an inherited property, the score of a
    genre is the sum, over every occurrence of the genre in the
    genre list of a watched item, of the rating of that item, 3 when it has
    none: an item that lists the genre twice counts twice.  When no genre
    of a watched item is named like an array index, [topGenres] is the
    first 8 of the genres of the watched items arranged by descending score,
    the genres of one and the same score in the order in which they were
    first seen.  On the three items of the example Drama scores 8, Comedy
    scores 4 and [topGenres] is Drama, Comedy. *)
Theorem topGenres_ranking (trim : string -> string) (items : list item)
    (notes : string) (Hvalid : Forall valid_rating items)
    (Hown : own_names items = true) :
  let ws := List.filter watched items in
  let names := first_seen (flat_map genres_of ws) in
  let score := score_by_occurrence items in
  (forall g, In g names -> get_prop g (genreScore ws) = Some (score g))
  /\ (forall g, ~ In g names -> get_prop g (genreScore ws) = None)
  /\ (Forall (fun i => Forall (fun g => array_index g = None) (genres_of i)) ws ->
      exists ranked,
        topGenres (buildTasteProfile trim items notes) = take 8 ranked
        /\ Permutation ranked names
        /\ StronglySorted (fun g h => score h <= score g) ranked
        /\ (forall v, List.filter (fun g => score g =? v) ranked
                     = List.filter (fun g => score g =? v) names)).
Proof.
  intros ws names score.
  assert (Hscore : forall g, total g (scored ws) = score g).
  { intros g. apply total_scored. by apply Forall_filter_watched. }
  assert (Hseen : forall g, seen g (scored ws) = true <-> In g names).
  { intros g. unfold names. by rewrite first_seen_In, seen_In, scored_names. }
  split; [|split].
  - intros g Hg. rewrite genreScore_acc, get_acc. simpl.
    apply Hseen in Hg. by rewrite Hg, Hscore.
  - intros g Hg. rewrite genreScore_acc, get_acc. simpl.
    destruct (seen g (scored ws)) eqn:E; [|reflexivity].
    exfalso. apply Hg. by apply Hseen.
  - intros Hnames.
    assert (Hall : Forall (fun gw => array_index (fst gw) = None) (scored ws)).
    { unfold scored. clear -Hnames.
      induction Hnames as [|i l Hi _ IH]; simpl; [constructor|].
      apply Forall_app. split; [|exact IH].
      apply Forall_map. eapply Forall_impl; [exact Hi|]. by intros g Hg. }
    exists (sort (desc score) names). split; [|split; [|split]].
    + simpl. fold ws. rewrite (genreScore_entries ws Hall). fold names.
      rewrite sort_map, <- fmap_take.
      change (map fst (?f <$> ?l)) with (map fst (map f l)).
      rewrite map_map. simpl. rewrite map_id. f_equal.
      apply sort_ext. intros a b. unfold by_score_desc, desc. simpl.
      by rewrite !Hscore.
    + apply sort_Permutation.
    + apply (sort_desc_sorted score).
    + intros v. apply (sort_desc_stable score).
Qed.

Lemma drama_comedy_valid : Forall valid_rating drama_comedy.
Proof. repeat constructor; unfold valid_rating; simpl; lia. Qed.

Lemma topGenres_ranking_witness :
  get_prop "Drama" (genreScore drama_comedy) = Some 8
  /\ get_prop "Comedy" (genreScore drama_comedy) = Some 4
  /\ (exists ranked,
        topGenres (buildTasteProfile (fun s => s) drama_comedy "") = take 8 ranked
        /\ Permutation ranked ["Drama"; "Comedy"])
  /\ topGenres (buildTasteProfile (fun s => s) drama_comedy "") = ["Drama"; "Comedy"].
Proof.
  destruct (topGenres_ranking (fun s => s) drama_comedy "" drama_comedy_valid
              eq_refl) as (Hin & _ & Hrank).
  split; [|split; [|split]].
  - apply (Hin "Drama"). simpl. tauto.
  - apply (Hin "Comedy"). simpl. tauto.
  - destruct Hrank as (ranked & Htop & Hperm & _).
    + repeat constructor.
    + exists ranked. split; [exact Htop | exact Hperm].
  - reflexivity.
Defined.

(** Claim C4 as stated fails twice.  The genres Drama and 7 of one item tie
    at 5 and Drama is seen first, but the object enumerates the array index
    7 before Drama.  And the one item that carries Drama, rated 5, lists it
    twice, and Drama scores 10. *)
Lemma topGenres_claim_fails :
  (topGenres (buildTasteProfile (fun s => s) drama_and_7 "") = ["7"; "Drama"]
   /\ claimed_topGenres drama_and_7 = ["Drama"; "7"]
   /\ topGenres (buildTasteProfile (fun s => s) drama_and_7 "")
      <> claimed_topGenres drama_and_7)
  /\ (get_prop "Drama" (genreScore (List.filter watched drama_twice)) = Some 10
      /\ claimed_score drama_twice "Drama" = 5
      /\ get_prop "Drama" (genreScore (List.filter watched drama_twice))
         <> Some (claimed_score drama_twice "Drama")).
Proof. repeat split; discriminate. Qed.

End AiFacts.

Module AskAIFacts.
Import Js Json Functions AskAISpec.

(** *** The span from the first opening to the last closing brace *)

Lemma from_first_open_split (raw : ustring) :
  exists pre,
    raw = pre ++ from_first_open raw
    /\ ~ In 123%N pre
    /\ (from_first_open raw = [] \/ exists t, from_first_open raw = 123%N :: t).
Proof.
  induction raw as [|c raw (pre & E & Hpre & Hcase)]; simpl.
  - exists []. split; [reflexivity|]. split; [tauto | by left].
  - destruct (c =? 123)%N eqn:Ec.
    + apply N.eqb_eq in Ec. subst c.
      exists []. split; [reflexivity|]. split; [tauto | right; by exists raw].
    + apply N.eqb_neq in Ec.
      exists (c :: pre). split; [simpl; congruence|]. split; [|exact Hcase].
      simpl. intros [H|H]; [congruence | tauto].
Qed.

Lemma from_first_open_app (pre t : ustring) :
  ~ In 123%N pre -> from_first_open (pre ++ 123%N :: t) = 123%N :: t.
Proof.
  induction pre as [|c pre IH]; simpl; intros H; [reflexivity|].
  destruct (c =? 123)%N eqn:Ec.
  - apply N.eqb_eq in Ec. tauto.
  - apply IH. tauto.
Qed.

Lemma through_last_close_None (s : ustring) :
  through_last_close s = None <-> ~ In 125%N s.
Proof.
  induction s as [|c s IH]; simpl; [tauto|].
  destruct (through_last_close s) as [r|].
  - split; [discriminate|]. intros H. exfalso.
    assert (Hs : ~ In 125%N s) by tauto. apply IH in Hs. discriminate.
  - destruct (c =? 125)%N eqn:Ec.
    + apply N.eqb_eq in Ec. split; [discriminate | tauto].
    + apply N.eqb_neq in Ec. split; [|reflexivity].
      intros _ [H|H]; [congruence|]. by apply (proj1 IH).
Qed.

Lemma through_last_close_Some (s r : ustring) :
  through_last_close s = Some r ->
  exists r' post, r = r' ++ [125%N] /\ s = r ++ post /\ ~ In 125%N post.
Proof.
  revert r. induction s as [|c s IH]; simpl; intros r; [discriminate|].
  destruct (through_last_close s) as [r0|] eqn:E.
  - intros [= <-]. destruct (IH r0 eq_refl) as (r' & post & -> & -> & Hpost).
    exists (c :: r'), post. repeat split; auto.
  - destruct (c =? 125)%N eqn:Ec; [|discriminate].
    apply N.eqb_eq in Ec. subst c. intros [= <-].
    exists [], s. repeat split. by apply through_last_close_None.
Qed.

Lemma through_last_close_app (r' post : ustring) :
  ~ In 125%N post ->
  through_last_close (r' ++ 125%N :: post) = Some (r' ++ [125%N]).
Proof.
  intros Hpost. induction r' as [|c r' IH]; simpl.
  - by rewrite (proj2 (through_last_close_None post) Hpost).
  - by rewrite IH.
Qed.

(** The match is the span from the first opening brace to the last
    closing brace, when there is one after it. *)
Lemma match_braces_Some (raw matched : ustring) :
  match_braces raw = Some matched <->
  exists pre body post,
    raw = pre ++ matched ++ post
    /\ matched = 123%N :: body ++ [125%N]
    /\ ~ In 123%N pre /\ ~ In 125%N post.
Proof.
  unfold match_braces. split.
  - intros H.
    destruct (from_first_open_split raw) as (pre & E & Hpre & Hcase).
    destruct (through_last_close_Some _ _ H) as (r' & post & -> & Es & Hpost).
    destruct Hcase as [Hnil | (t & Ht)].
    + rewrite Hnil in H. discriminate.
    + rewrite Ht in Es. destruct r' as [|c r']; simpl in Es.
      * inversion Es.
      * injection Es as <- Ht'. exists pre, r', post.
        split; [|by repeat split]. rewrite Ht in E. rewrite E, Ht'.
        reflexivity.
  - intros (pre & body & post & -> & -> & Hpre & Hpost).
    simpl. rewrite from_first_open_app by exact Hpre.
    rewrite <- app_assoc. simpl.
    change (123%N :: body ++ 125%N :: post) with ((123%N :: body) ++ 125%N :: post).
    by rewrite through_last_close_app.
Qed.

Lemma match_braces_None (raw : ustring) :
  match_braces raw = None <->
  ~ exists pre body post, raw = pre ++ 123%N :: body ++ 125%N :: post.
Proof.
  unfold match_braces. split.
  - intros H (pre & body & post & ->).
    destruct (from_first_open_split (pre ++ 123%N :: body ++ 125%N :: post))
      as (pre' & E & Hpre' & _).
    apply through_last_close_None in H. apply H.
    assert (Hin : In 125%N (pre ++ 123%N :: body ++ 125%N :: post)).
    { rewrite in_app_iff. right. right. rewrite in_app_iff. right. by left. }
    assert (H123 : In 123%N (pre ++ 123%N :: body ++ 125%N :: post)).
    { rewrite in_app_iff. right. by left. }
    (* the first opening brace is at or before the one shown *)
    clear H E Hpre' pre'. induction pre as [|c pre IH]; simpl.
    + rewrite in_app_iff. right. right. by left.
    + destruct (c =? 123)%N.
      * right. rewrite in_app_iff. right. right. rewrite in_app_iff. right. by left.
      * apply IH.
        -- rewrite in_app_iff. right. right. rewrite in_app_iff. right. by left.
        -- rewrite in_app_iff. right. by left.
  - intros Hno.
    destruct (through_last_close (from_first_open raw)) as [m|] eqn:E; [|reflexivity].
    exfalso. apply Hno.
    apply (proj1 (match_braces_Some raw m)) in E
      as (pre & body & post & -> & -> & _ & _).
    exists pre, body, post. simpl. by rewrite <- app_assoc.
Qed.

(** *** A text that opens with a brace parses to an object, if at all *)

Lemma lex_prefix (s : ustring) (st : lex_state) (out ts : list token) :
  lex st s out = Some ts -> exists more, ts = rev out ++ more.
Proof.
  revert st out. induction s as [|c s IH]; intros st out H.
  - destruct st; simpl in H; try discriminate.
    + injection H as <-. exists []. by rewrite app_nil_r.
    + destruct (word_token (rev rev_chars)); [|discriminate].
      injection H as <-. simpl. by eexists.
    + destruct (parse_number (rev rev_chars)); [|discriminate].
      injection H as <-. simpl. by eexists.
  - destruct st; simpl in H;
      repeat match type of H with
             | context [match ?x with _ => _ end] => destruct x eqn:?
             | context [if ?x then _ else _] => destruct x eqn:?
             end;
      try discriminate;
      apply IH in H as (more & ->);
      simpl; rewrite ?rev_app_distr; simpl; rewrite <- ?app_assoc; by eexists.
Qed.

Lemma push_value_opened (v : json) (stack stack' : list frame) (e' : expect) :
  (stack = [] -> is_obj v) ->
  (stack <> [] -> bottom_obj stack = true) ->
  push_value v stack = Some (stack', e') -> opened_by_brace stack' e'.
Proof.
  intros Hempty Hbot H.
  destruct stack as [|[es|ms [k|]] [|f st]]; simpl in *;
    try discriminate; injection H as <- <-; simpl; auto;
    try (apply Hbot; discriminate).
Qed.

Lemma parse_step_opened (t : token) (stack stack' : list frame) (e e' : expect) :
  opened_by_brace stack e ->
  parse_step t stack e = Some (stack', e') -> opened_by_brace stack' e'.
Proof.
  intros Hinv H.
  assert (Hpop : forall f st v,
            stack = f :: st -> (st = [] -> is_obj v) ->
            push_value v st = Some (stack', e') -> opened_by_brace stack' e').
  { intros f st v -> Hv Hp. eapply push_value_opened; [exact Hv| |exact Hp].
    intros Hne. destruct e as [| | | | | |d]; simpl in Hinv;
      destruct f, st; simpl in *; congruence. }
  assert (Hpush : forall v,
            e <> EColon -> (forall d, e <> EDone d) ->
            push_value v stack = Some (stack', e') -> opened_by_brace stack' e').
  { intros v H1 H2 Hp. eapply push_value_opened; [| |exact Hp].
    - intros ->. destruct e as [| | | | | |d]; simpl in Hinv; try discriminate;
        try (by destruct (H2 d)).
    - intros _. destruct e as [| | | | | |d]; simpl in Hinv; try done;
        try (by destruct (H2 d)). }
  destruct e, t; simpl in H; try discriminate;
    try (eapply Hpush; [discriminate | discriminate | exact H]);
    try (injection H as <- <-; exact Hinv);
    try (destruct stack as [|[es|ms [k|]] st]; try discriminate;
         first
           [ injection H as <- <-; simpl in *;
             try (destruct st); simpl in *; congruence
           | eapply Hpop; [reflexivity| |exact H]; intros ->; simpl in *;
             first [discriminate | by eexists] ]).
Qed.

Lemma parse_tokens_opened (ts : list token) (stack : list frame) (e : expect) (v : json) :
  opened_by_brace stack e -> parse_tokens ts stack e = Some v -> is_obj v.
Proof.
  revert stack e. induction ts as [|t ts IH]; intros stack e Hinv H; simpl in H.
  - destruct e; try discriminate. injection H as <-. exact Hinv.
  - destruct (parse_step t stack e) as [[stack' e']|] eqn:E; [|discriminate].
    eapply IH; [|exact H]. eapply parse_step_opened; eauto.
Qed.

Lemma parse_brace_is_object (rest : ustring) (v : json) :
  parse (123%N :: rest) = Some v -> is_obj v.
Proof.
  unfold parse. simpl.
  destruct (lex LStart rest [TLBrace]) as [ts|] eqn:E; [|discriminate].
  apply lex_prefix in E as (more & ->). simpl.
  apply parse_tokens_opened. reflexivity.
Qed.

(** *** The outcome of a request *)

Lemma askAI_accepted (trim : ustring -> ustring) (request : call) (m : message) :
  accepted_call trim request ->
  askAI trim request true (Ok m) =
    match read_message m with
    | Ok r => Ok r
    | Throw (HttpsError c msg) => Throw (HttpsError c msg)
    | Throw _ => Throw request_failed
    end.
Proof.
  intros (Hauth & p & Hp & Hne & Htrim). unfold askAI. rewrite Hauth, Hp. simpl.
  destruct p; [done|]. destruct (trim (n :: p)); [done|]. reflexivity.
Qed.

Lemma classify_object (members : list (ustring * json)) :
  classify (JObj members) =
    if is_string (get_member (U "type") members) "recommendations" then
      Ok (Recommendations (or_else (get_member (U "items") members) (JArr [])))
    else if is_string (get_member (U "type") members) "answer" then
      Ok (Answer (or_else (get_member (U "heading") members) (JStr []))
                 (or_else (get_member (U "text") members) (JStr [])))
    else Throw type_error.
Proof. reflexivity. Qed.

Lemma is_string_true (v : option json) (s : string) :
  is_string v s = true <-> v = Some (JStr (U s)).
Proof.
  destruct v as [[| | | x | |]|]; simpl; try (split; [discriminate|intros [=]]).
  rewrite bool_decide_eq_true. split; [by intros -> | by intros [= ->]].
Qed.

(** Claim C5, as amended.  The pipeline takes the span of the raw text from
    its first opening brace to the last closing brace after it.  Without
    such a span the request fails with the response-format error.  When
    the span is no JSON text the request fails with the general
    request-failed error, the one a failed call of the model gives, not
    with the response-format error.  A span that parses is an object: with
    type recommendations it is accepted, missing items being the empty
    list; with type answer it is accepted, missing heading and text being
    empty strings; with any other type, or none, the request fails with the
    response-type error. *)
Theorem askAI_classification (trim : ustring -> ustring) (request : call)
    (m : message) (Hcall : accepted_call trim request) :
  let raw := raw_text m in
  let result := askAI trim request true (Ok m) in
  (forall matched,
     match_braces raw = Some matched <->
     exists pre body post,
       raw = pre ++ matched ++ post
       /\ matched = 123%N :: body ++ [125%N]
       /\ ~ In 123%N pre /\ ~ In 125%N post)
  /\ (match_braces raw = None -> result = Throw format_error)
  /\ (forall matched,
        match_braces raw = Some matched -> parse matched = None ->
        result = Throw request_failed)
  /\ (forall matched parsed,
        match_braces raw = Some matched -> parse matched = Some parsed ->
        exists members,
          parsed = JObj members
          /\ let type := get_member (U "type") members in
             (type = Some (JStr (U "recommendations")) ->
                result = Ok (Recommendations
                               (or_else (get_member (U "items") members) (JArr [])))
                /\ (get_member (U "items") members = None ->
                    result = Ok (Recommendations (JArr []))))
             /\ (type = Some (JStr (U "answer")) ->
                  result = Ok (Answer
                                 (or_else (get_member (U "heading") members) (JStr []))
                                 (or_else (get_member (U "text") members) (JStr [])))
                  /\ (get_member (U "heading") members = None ->
                      get_member (U "text") members = None ->
                      result = Ok (Answer (JStr []) (JStr []))))
             /\ (type <> Some (JStr (U "recommendations")) ->
                  type <> Some (JStr (U "answer")) ->
                  result = Throw type_error)).
Proof.
  intros raw result. subst result. rewrite (askAI_accepted _ _ _ Hcall).
  unfold read_message. fold raw.
  split; [intros matched; apply match_braces_Some|].
  split; [by intros ->|].
  split; [by intros matched -> ->|].
  intros matched parsed Hm Hp. rewrite Hm, Hp.
  assert (Hobj : is_obj parsed).
  { apply (proj1 (match_braces_Some _ _)) in Hm as (pre & body & post & _ & -> & _).
    by apply parse_brace_is_object in Hp. }
  destruct Hobj as (members & ->). exists members. split; [reflexivity|].
  rewrite classify_object. cbv zeta.
  split; [|split].
  - intros Ht. apply is_string_true in Ht. rewrite Ht.
    split; [reflexivity|]. by intros ->.
  - intros Ht.
    assert (Hr : is_string (get_member (U "type") members) "recommendations" = false).
    { rewrite Ht. reflexivity. }
    apply is_string_true in Ht. rewrite Hr, Ht.
    split; [reflexivity|]. by intros -> ->.
  - intros H1 H2.
    destruct (is_string _ "recommendations") eqn:E1;
      [by apply is_string_true in E1|].
    destruct (is_string _ "answer") eqn:E2; [by apply is_string_true in E2|].
    reflexivity.
Qed.

(** *** The examples *)

Lemma a_call_accepted : accepted_call (fun p => p) a_call.
Proof. split; [reflexivity|]. eexists. split; [reflexivity|]. by split. Qed.

Lemma askAI_classification_witness :
  match_braces (U "foo " ++ answer_payload ++ U " bar") = Some answer_payload
  /\ askAI (fun p => p) a_call true (Ok (says (U "foo " ++ answer_payload ++ U " bar")))
     = Ok (Answer (JStr (U "H")) (JStr (U "T")))
  /\ askAI (fun p => p) a_call true (Ok (says (U "no braces here")))
     = Throw format_error
  /\ askAI (fun p => p) a_call true (Ok (says weird_payload)) = Throw type_error.
Proof.
  split; [reflexivity|]. split; [|split].
  - destruct (askAI_classification (fun p => p) a_call
                (says (U "foo " ++ answer_payload ++ U " bar")) a_call_accepted)
      as (_ & _ & _ & H).
    destruct (H answer_payload
                (JObj [(U "type", JStr (U "answer")); (U "heading", JStr (U "H"));
                       (U "text", JStr (U "T"))]) eq_refl eq_refl)
      as (members & [= <-] & _ & Hanswer & _).
    apply Hanswer. reflexivity.
  - by apply (askAI_classification (fun p => p) a_call (says (U "no braces here"))
                a_call_accepted).
  - destruct (askAI_classification (fun p => p) a_call (says weird_payload)
                a_call_accepted) as (_ & _ & _ & H).
    destruct (H weird_payload (JObj [(U "type", JStr (U "weird"))]) eq_refl eq_refl)
      as (members & [= <-] & _ & _ & Hother).
    apply Hother; discriminate.
Defined.

(** Claim C5 as stated fails: the text has a span from brace to brace that
    is no JSON text, and the request fails with the request-failed error,
    which is not the response-format error. *)
Lemma parse_failure_is_request_failure :
  match_braces (U "{oops}") = Some (U "{oops}")
  /\ parse (U "{oops}") = None
  /\ askAI (fun p => p) a_call true (Ok (says (U "{oops}"))) = Throw request_failed
  /\ askAI (fun p => p) a_call true (Ok (says (U "{oops}"))) <> Throw format_error.
Proof. repeat split. discriminate. Qed.

(** Claim C10.  When the message has no first content block, or that block
    has no text or an empty one, the raw response is the two braces; they
    are matched and parse to the object without members, which has no
    type, and the request fails with the response-type error, not with the
    response-format error. *)
Theorem askAI_no_text (trim : ustring -> ustring) (request : call) (m : message)
    (Hcall : accepted_call trim request)
    (Hempty : head (content m) = None
              \/ exists b, head (content m) = Some b
                           /\ (text b = None \/ text b = Some [])) :
  raw_text m = U "{}"
  /\ match_braces (raw_text m) = Some (U "{}")
  /\ parse (U "{}") = Some (JObj [])
  /\ get_member (U "type") [] = None
  /\ askAI trim request true (Ok m) = Throw type_error
  /\ askAI trim request true (Ok m) <> Throw format_error.
Proof.
  assert (Hraw : raw_text m = U "{}").
  { unfold raw_text. destruct Hempty as [-> | (b & -> & [-> | ->])]; reflexivity. }
  assert (Hres : askAI trim request true (Ok m) = Throw type_error).
  { rewrite (askAI_accepted _ _ _ Hcall). unfold read_message. by rewrite Hraw. }
  rewrite Hres, Hraw. repeat split. discriminate.
Qed.

Lemma askAI_no_text_witness :
  askAI (fun p => p) a_call true (Ok (Message [])) = Throw type_error
  /\ askAI (fun p => p) a_call true (Ok (Message [Block None])) = Throw type_error.
Proof.
  split.
  - apply (askAI_no_text (fun p => p) a_call (Message []) a_call_accepted).
    by left.
  - apply (askAI_no_text (fun p => p) a_call (Message [Block None]) a_call_accepted).
    right. exists (Block None). split; [reflexivity | by left].
Defined.

End AskAIFacts.

Module CacheFacts.
Import Js Env Store StoreSpec StoreFacts CacheSpec.

Lemma send_same (r : request) (f : gmap string obj -> option (gmap string obj))
    (w : world) :
  same_binding w (snd (send r f w)) /\ same_cache w (snd (send r f w)).
Proof.
  unfold send.
  destruct (firestore_accepts w (length (requests w))); [destruct (f (remote w))|];
    by repeat split.
Qed.

Lemma snd_bind_ret {A B} (m : M A) (b : B) (w : world) :
  snd (bind m (fun _ => ret b) w) = snd (m w).
Proof. unfold bind, ret. by destruct (m w) as [[a|e] w']. Qed.

Lemma bind_get_world {A} (k : world -> M A) (w : world) :
  bind get_world k w = k w w.
Proof. reflexivity. Qed.

Lemma after_write_same (op : write) (w : world) :
  same_binding w (after_write op w) /\ same_cache w (after_write op w).
Proof.
  assert (Hrefl : same_binding w w /\ same_cache w w) by (by repeat split).
  destruct op; simpl;
    unfold addItem, removeItem, markWatched, unmarkWatched, updateRating,
      patchItem, saveTasteNotes;
    rewrite !bind_get_world;
    destruct (uid_truthy (currentUid w)); simpl; try exact Hrefl;
    try apply send_same.
  - destruct (List.find _ _); [exact Hrefl|].
    rewrite snd_bind_ret. apply send_same.
  - unfold bind, setDoc.
    destruct (send_same (SetDoc ("users/" +:+ default "" (currentUid w) +:+ "/profile/taste")
                           {[ "tasteNotes" := notes ]})
                (fun r => Some (<["users/" +:+ default "" (currentUid w) +:+ "/profile/taste"
                                  := {[ "tasteNotes" := notes ]}]> r)) w) as [Hb Hc].
    destruct (send _ _ w) as [[[]|e] w']; simpl in *; by split.
Qed.

Lemma tracked_same_binding (w w' : world) :
  same_binding w w' -> tracked w -> tracked w'.
Proof.
  intros (Hl & Hn & Hu & Hm & Ht & Hp) [Hlt Hcase]. unfold tracked.
  rewrite Hl, Hn, Hu, Hm, Ht, Hp. by split.
Qed.

Lemma deliver_same_binding (k : nat) (snap : snapshot) (w : world) :
  same_binding w (deliver k snap w).
Proof.
  unfold deliver.
  destruct (listeners w !! k) as [[u [] | u]|], snap as [docs | [data|]];
    by repeat split.
Qed.

(** What [setUser] makes of the listeners when the ones it finds are the
    tracked ones. *)
Lemma setUser_listeners (uid : option string) (w : world) :
  tracked w ->
  next_listener (setUser uid w)
    = (if uid_truthy uid then 3 + next_listener w else next_listener w)
  /\ listeners (setUser uid w) =
       match uid with
       | Some u =>
           if uid_truthy uid then
             {[ next_listener w := Collection u movie;
                S (next_listener w) := Collection u tv;
                S (S (next_listener w)) := ProfileDoc u ]}
           else ∅
       | None => ∅
       end
  /\ (uid_truthy uid = true ->
      unsub_movie (setUser uid w) = Some (next_listener w)
      /\ unsub_tv (setUser uid w) = Some (S (next_listener w))
      /\ unsub_profile (setUser uid w) = Some (S (S (next_listener w))))
  /\ (uid_truthy uid = false ->
      unsub_movie (setUser uid w) = None /\ unsub_tv (setUser uid w) = None
      /\ unsub_profile (setUser uid w) = None)
  /\ currentUid (setUser uid w) = uid.
Proof.
  intros [Hlt Hcase].
  assert (Hgone :
    listeners (unsubscribe (unsub_profile w)
                 (unsubscribe (unsub_tv w) (unsubscribe (unsub_movie w) w))) = ∅).
  { destruct w as [cm ct tn cu um ut up ls nx rm rq fa cc cd cs t]; simpl in *.
    assert (Hcases :
      (um = None /\ ut = None /\ up = None /\ ls = ∅)
      \/ exists u km kt kp, um = Some km /\ ut = Some kt /\ up = Some kp
           /\ ls = {[ km := Collection u movie; kt := Collection u tv;
                      kp := ProfileDoc u ]}).
    { destruct cu as [u|]; [|by left].
      destruct (negb (String.eqb u "")); [|by left].
      destruct Hcase as (km & kt & kp & -> & -> & -> & _ & _ & _ & ->).
      right. by exists u, km, kt, kp. }
    destruct Hcases as [(-> & -> & -> & ->) | (u & km & kt & kp & -> & -> & -> & ->)];
      simpl; [reflexivity|].
    apply map_eq. intros i. rewrite lookup_empty.
    rewrite !lookup_delete, !lookup_insert, lookup_singleton.
    repeat case_decide; congruence. }
  destruct w as [cm ct tn cu um ut up ls nx rm rq fa cc cd cs t].
  unfold setUser.
  destruct um as [km|], ut as [kt|], up as [kp|]; simpl in Hgone |- *;
    destruct uid as [u|]; simpl;
    try (destruct (negb (String.eqb u "")) eqn:E; simpl);
    rewrite ?Hgone; repeat split; try done; try (intros; done);
    try (apply map_eq; intros i;
         rewrite !lookup_insert, ?lookup_empty, ?lookup_singleton;
         repeat case_decide; subst; try congruence; try lia).
Qed.

Lemma tracked_initial (accepts : nat -> bool) (det : nat -> outcome obj)
    (sea : nat -> outcome (list obj)) (t : Z) :
  tracked (initial accepts det sea t).
Proof.
  split; simpl; [|done].
  intros k [x Hx]. by rewrite lookup_empty in Hx.
Qed.

Lemma tracked_setUser (uid : option string) (w : world) :
  tracked w -> tracked (setUser uid w).
Proof.
  intros Ht. destruct (setUser_listeners uid w Ht) as (Hn & Hl & Hb & Hs & Hu).
  split.
  - intros k [x Hx]. rewrite Hl in Hx. rewrite Hn.
    destruct uid as [u|]; [|by rewrite lookup_empty in Hx].
    destruct (uid_truthy (Some u)); [|by rewrite lookup_empty in Hx].
    rewrite !lookup_insert, lookup_singleton in Hx.
    repeat case_decide; try discriminate; lia.
  - rewrite Hu. destruct uid as [u|].
    + destruct (uid_truthy (Some u)) eqn:E.
      * destruct (Hb eq_refl) as (-> & -> & ->).
        exists (next_listener w), (S (next_listener w)), (S (S (next_listener w))).
        rewrite Hl. repeat split; lia.
      * destruct (Hs eq_refl) as (-> & -> & ->). by rewrite Hl.
    + destruct (Hs eq_refl) as (-> & -> & ->). by rewrite Hl.
Qed.

Lemma tracked_step (w : world) (e : event) : tracked w -> tracked (step w e).
Proof.
  destruct e as [uid | k snap | op]; simpl.
  - apply tracked_setUser.
  - apply tracked_same_binding, deliver_same_binding.
  - apply tracked_same_binding, after_write_same.
Qed.

Lemma tracked_run (es : list event) (w : world) : tracked w -> tracked (run es w).
Proof.
  revert w. induction es as [|e es IH]; intros w Hw; simpl; [exact Hw|].
  apply IH. by apply tracked_step.
Qed.

(** ** The listeners *)

(** Extra X1.  In every state the store can reach from a fresh session, by
    binding identities, by snapshots arriving and by writes, the listeners
    that Firestore holds are the tracked ones: none when signed out, and
    for a bound user exactly one for each category and one for the profile
    document, all for that user.  In particular no two listeners watch the
    same target, and there are never more than three. *)
Theorem listeners_are_tracked (es : list event) (accepts : nat -> bool)
    (det : nat -> outcome obj) (sea : nat -> outcome (list obj)) (t : Z) :
  let w := run es (initial accepts det sea t) in
  tracked w
  /\ (forall k1 k2 tg,
        listeners w !! k1 = Some tg -> listeners w !! k2 = Some tg -> k1 = k2)
  /\ (forall k u type,
        listeners w !! k = Some (Collection u type) -> currentUid w = Some u)
  /\ size (listeners w) <= 3.
Proof.
  intros w.
  assert (Ht : tracked w) by apply tracked_run, tracked_initial.
  split; [exact Ht|]. destruct Ht as [_ Hcase].
  assert (Hcases :
    listeners w = ∅
    \/ exists u km kt kp,
         currentUid w = Some u /\ km <> kt /\ km <> kp /\ kt <> kp
         /\ listeners w = {[ km := Collection u movie; kt := Collection u tv;
                             kp := ProfileDoc u ]}).
  { destruct (currentUid w) as [u|]; [|left; tauto].
    destruct (uid_truthy (Some u)); [|left; tauto].
    destruct Hcase as (km & kt & kp & _ & _ & _ & H1 & H2 & H3 & Hl).
    right. by exists u, km, kt, kp. }
  destruct Hcases as [-> | (u & km & kt & kp & -> & H1 & H2 & H3 & ->)].
  - split; [|split].
    + intros k1 k2 tg H. by rewrite lookup_empty in H.
    + intros k u type H. by rewrite lookup_empty in H.
    + rewrite map_size_empty. lia.
  - split; [|split].
    + intros k1 k2 tg. rewrite !lookup_insert, !lookup_singleton.
      repeat case_decide; subst; congruence.
    + intros k u' type. rewrite !lookup_insert, !lookup_singleton.
      repeat case_decide; congruence.
    + rewrite !map_size_insert, map_size_singleton.
      repeat destruct (_ !! _); simpl; lia.
Qed.

(** Extra X2.  When the listeners are the tracked ones, a snapshot that
    arrives after [setUser] for a listener opened before it is dropped: it
    changes nothing, so data of the previous binding cannot reach the cache
    late. *)
Theorem late_snapshot_ignored (uid : option string) (k : nat) (snap : snapshot)
    (w : world) (Htracked : tracked w) (Hold : k < next_listener w) :
  deliver k snap (setUser uid w) = setUser uid w.
Proof.
  destruct (setUser_listeners uid w Htracked) as (_ & Hl & _).
  unfold deliver. rewrite Hl.
  assert (Hnone :
    match uid with
    | Some u =>
        if uid_truthy uid then
          ({[ next_listener w := Collection u movie;
              S (next_listener w) := Collection u tv;
              S (S (next_listener w)) := ProfileDoc u ]} : gmap nat target)
        else ∅
    | None => ∅
    end !! k = None).
  { destruct uid as [u|]; [|apply lookup_empty].
    destruct (uid_truthy (Some u)); [|apply lookup_empty].
    rewrite !lookup_insert, lookup_singleton. repeat case_decide; try lia. done. }
  by rewrite Hnone.
Qed.

Lemma late_snapshot_ignored_witness :
  getAll movie
    (deliver 0 (QuerySnapshot [heat]) (setUser (Some "bob") alice_with_film))
  = [film].
Proof.
  rewrite (late_snapshot_ignored (Some "bob") 0 (QuerySnapshot [heat]) alice_with_film).
  - vm_compute. reflexivity.
  - unfold alice_with_film.
    apply (tracked_same_binding (setUser (Some "alice") quiet));
      [apply deliver_same_binding|].
    apply tracked_setUser. unfold quiet. apply tracked_initial.
  - assert (E : next_listener alice_with_film = 3) by (vm_compute; reflexivity).
    rewrite E. lia.
Defined.

(** Extra X3.  After [setUser] for a user, a snapshot delivered to the
    listener of a category replaces the cached collection of that category
    by the documents of the snapshot, whole, and leaves the collection of
    the other category as it was. *)
Theorem snapshot_replaces_collection (u : string) (w : world) (docs : list obj)
    (Hu : u <> "") :
  exists km kt,
    unsub_movie (setUser (Some u) w) = Some km
    /\ unsub_tv (setUser (Some u) w) = Some kt
    /\ getAll movie (deliver km (QuerySnapshot docs) (setUser (Some u) w)) = docs
    /\ getAll tv (deliver km (QuerySnapshot docs) (setUser (Some u) w)) = getAll tv w
    /\ getAll tv (deliver kt (QuerySnapshot docs) (setUser (Some u) w)) = docs
    /\ getAll movie (deliver kt (QuerySnapshot docs) (setUser (Some u) w))
       = getAll movie w.
Proof.
  assert (E : negb (String.eqb u "") = true).
  { apply negb_true_iff. by apply String.eqb_neq. }
  destruct w as [cm ct tn cu [km|] [kt|] [kp|] ls nx rm rq fa cc cd cs t];
    unfold setUser; simpl; rewrite E; simpl;
    eexists _, _; (split; [reflexivity|]); (split; [reflexivity|]);
    unfold deliver; simpl;
    rewrite ?lookup_insert_eq;
    rewrite ?(lookup_insert_ne _ (S (S nx)) nx) by lia;
    rewrite ?(lookup_insert_ne _ (S (S nx)) (S nx)) by lia;
    rewrite ?(lookup_insert_ne _ (S nx) nx) by lia;
    rewrite ?lookup_insert_eq; done.
Qed.

Lemma snapshot_replaces_collection_witness :
  exists km,
    unsub_movie (setUser (Some "alice") quiet) = Some km
    /\ getAll movie (deliver km (QuerySnapshot [film]) (setUser (Some "alice") quiet))
       = [film].
Proof.
  destruct (snapshot_replaces_collection "alice" quiet [film])
    as (km & kt & Hm & _ & Hd & _); [discriminate|].
  by exists km.
Defined.

(** ** The writes *)

Lemma outside_user_state (f : string) (a b c e : value) :
  ~ In f user_state ->
  ({[ "watched" := a; "watchedAt" := b; "rating" := c; "notes" := e ]} : obj) !! f
  = None.
Proof.
  intros H.
  repeat (rewrite lookup_insert_ne by (intros <-; apply H; simpl; tauto)).
  apply lookup_singleton_ne. intros <-; apply H; simpl; tauto.
Qed.

Lemma updateDoc_found (path : string) (updates d : obj) (w : world) :
  firestore_accepts w (length (requests w)) = true ->
  remote w !! path = Some d ->
  updateDoc path updates w =
    (Ok tt, set_remote (<[path := updates ∪ d]> (remote w))
              (requests w ++ [UpdateDoc path updates]) w).
Proof. intros Ha Hd. unfold updateDoc, send. by rewrite Ha, Hd. Qed.

Lemma updateDoc_missing (path : string) (updates : obj) (w : world) :
  firestore_accepts w (length (requests w)) = true ->
  remote w !! path = None ->
  updateDoc path updates w =
    (Throw (FirebaseError "not-found"),
     set_remote (remote w) (requests w ++ [UpdateDoc path updates]) w).
Proof. intros Ha Hd. unfold updateDoc, send. by rewrite Ha, Hd. Qed.

(** Extra X4.  Signed out, every write of the store returns without an
    exception and changes nothing: no request is sent, no cache touched. *)
Theorem signed_out_writes_do_nothing (w : world)
    (Hout : uid_truthy (currentUid w) = false) :
  (forall type item, addItem type item w = (Ok false, w))
  /\ (forall type id, removeItem type id w = (Ok tt, w))
  /\ (forall type id rating notes, markWatched type id rating notes w = (Ok tt, w))
  /\ (forall type id, unmarkWatched type id w = (Ok tt, w))
  /\ (forall type id rating notes, updateRating type id rating notes w = (Ok tt, w))
  /\ (forall type id updates, patchItem type id updates w = (Ok tt, w))
  /\ (forall notes, saveTasteNotes notes w = (Ok tt, w)).
Proof.
  repeat split; intros;
    unfold addItem, removeItem, markWatched, unmarkWatched, updateRating,
      patchItem, saveTasteNotes;
    rewrite bind_get_world, Hout; reflexivity.
Qed.

Lemma signed_out_writes_do_nothing_witness :
  markWatched movie (Some (VNum 603)) (VNum 5) (VStr "again") quiet
  = (Ok tt, quiet).
Proof. by apply (signed_out_writes_do_nothing quiet). Defined.

(** Extra X5.  For a bound user and a record that is in the store, with
    both writes accepted: [markWatched] sets [watched], [watchedAt] (the
    current time), [rating] and [notes]; [unmarkWatched] after it sets
    them to false, null, null and the empty string; and every other field
    of the record is, after each of the two, what it was before. *)
Theorem unmarkWatched_after_markWatched (type : media) (id : option value)
    (rating notes : value) (d : obj) (w : world)
    (Hbound : uid_truthy (currentUid w) = true)
    (Hdoc : remote w !! ref type id w = Some d)
    (Hfirst : firestore_accepts w (length (requests w)) = true)
    (Hsecond : firestore_accepts w (S (length (requests w))) = true) :
  let w1 := snd (markWatched type id rating notes w) in
  let w2 := snd (unmarkWatched type id w1) in
  fst (markWatched type id rating notes w) = Ok tt
  /\ fst (unmarkWatched type id w1) = Ok tt
  /\ exists d1 d2,
      remote w1 !! ref type id w = Some d1
      /\ remote w2 !! ref type id w = Some d2
      /\ d1 !! "watched" = Some (VBool true)
      /\ d1 !! "watchedAt" = Some (VNum (now w))
      /\ d1 !! "rating" = Some rating
      /\ d1 !! "notes" = Some notes
      /\ d2 !! "watched" = Some (VBool false)
      /\ d2 !! "watchedAt" = Some VNull
      /\ d2 !! "rating" = Some VNull
      /\ d2 !! "notes" = Some (VStr "")
      /\ (forall f, ~ In f user_state -> d1 !! f = d !! f /\ d2 !! f = d !! f).
Proof.
  intros w1 w2.
  assert (E1 : markWatched type id rating notes w =
    (Ok tt, set_remote
       (<[ref type id w :=
            {[ "watched" := VBool true; "watchedAt" := VNum (now w);
               "rating" := rating; "notes" := notes ]} ∪ d]> (remote w))
       (requests w ++ [UpdateDoc (ref type id w)
                         {[ "watched" := VBool true; "watchedAt" := VNum (now w);
                            "rating" := rating; "notes" := notes ]}]) w)).
  { unfold markWatched. rewrite bind_get_world, Hbound. simpl.
    by apply updateDoc_found. }
  subst w1 w2. rewrite E1. simpl.
  set (w1 := set_remote _ _ w).
  assert (Hbound1 : uid_truthy (currentUid w1) = true) by exact Hbound.
  assert (Href : ref type id w1 = ref type id w) by reflexivity.
  assert (E2 : unmarkWatched type id w1 =
    (Ok tt, set_remote
       (<[ref type id w :=
            {[ "watched" := VBool false; "watchedAt" := VNull;
               "rating" := VNull; "notes" := VStr "" ]}
            ∪ ({[ "watched" := VBool true; "watchedAt" := VNum (now w);
                  "rating" := rating; "notes" := notes ]} ∪ d)]> (remote w1))
       (requests w1 ++ [UpdateDoc (ref type id w)
                          {[ "watched" := VBool false; "watchedAt" := VNull;
                             "rating" := VNull; "notes" := VStr "" ]}]) w1)).
  { unfold unmarkWatched. rewrite bind_get_world, Hbound1, Href. simpl.
    apply updateDoc_found.
    - subst w1. simpl. rewrite length_app. simpl.
      by replace (length (requests w) + 1) with (S (length (requests w))) by lia.
    - subst w1. simpl. apply lookup_insert_eq. }
  rewrite E2. simpl.
  split; [reflexivity|]. split; [reflexivity|].
  eexists _, _. split; [subst w1; simpl; apply lookup_insert_eq|].
  split; [apply lookup_insert_eq|].
  repeat split; try (by simplify_map_eq).
  - rewrite lookup_union_r; [reflexivity|]. by apply outside_user_state.
  - rewrite !lookup_union_r; [reflexivity| |]; by apply outside_user_state.
Qed.

Lemma unmarkWatched_after_markWatched_witness :
  exists d2,
    remote (snd (unmarkWatched movie (Some (VNum 603))
                   (snd (markWatched movie (Some (VNum 603)) (VNum 4) (VStr "good")
                           alice_stored)))) !! "users/alice/movie/603" = Some d2
    /\ d2 !! "rating" = Some VNull
    /\ d2 !! "title" = Some (VStr "The Matrix").
Proof.
  destruct (unmarkWatched_after_markWatched movie (Some (VNum 603)) (VNum 4)
              (VStr "good") (new_item film 1690000000000) alice_stored
              ltac:(vm_compute; reflexivity) ltac:(vm_compute; reflexivity)
              ltac:(vm_compute; reflexivity) ltac:(vm_compute; reflexivity))
    as (_ & _ & d1 & d2 & _ & H2 & _ & _ & _ & _ & _ & _ & Hr & _ & Hf).
  exists d2. split; [exact H2|]. split; [exact Hr|].
  rewrite (proj2 (Hf "title" ltac:(simpl; intuition discriminate))).
  reflexivity.
Defined.

(** Extra X6.  [updateRating] on a stored record, accepted, sets [rating]
    and [notes] and leaves every other field as it was: editing a rating
    never changes whether, or when, the item was watched. *)
Theorem updateRating_changes_rating_and_notes (type : media) (id : option value)
    (rating notes : value) (d : obj) (w : world)
    (Hbound : uid_truthy (currentUid w) = true)
    (Hdoc : remote w !! ref type id w = Some d)
    (Haccepts : firestore_accepts w (length (requests w)) = true) :
  let w' := snd (updateRating type id rating notes w) in
  fst (updateRating type id rating notes w) = Ok tt
  /\ exists d',
      remote w' !! ref type id w = Some d'
      /\ d' !! "rating" = Some rating
      /\ d' !! "notes" = Some notes
      /\ (forall f, f <> "rating" -> f <> "notes" -> d' !! f = d !! f).
Proof.
  intros w'. subst w'. unfold updateRating.
  rewrite bind_get_world, Hbound. simpl.
  rewrite (updateDoc_found _ _ d w Haccepts Hdoc). simpl.
  split; [reflexivity|]. eexists. split; [apply lookup_insert_eq|].
  repeat split; try (by simplify_map_eq).
  intros f H1 H2. rewrite lookup_union_r; [reflexivity|].
  rewrite lookup_insert_ne by done. by apply lookup_singleton_ne.
Qed.

Lemma updateRating_changes_rating_and_notes_witness :
  exists d',
    remote (snd (updateRating movie (Some (VNum 603)) (VNum 2) (VStr "meh")
                   alice_stored)) !! "users/alice/movie/603" = Some d'
    /\ d' !! "rating" = Some (VNum 2)
    /\ d' !! "watched" = Some (VBool false).
Proof.
  destruct (updateRating_changes_rating_and_notes movie (Some (VNum 603)) (VNum 2)
              (VStr "meh") (new_item film 1690000000000) alice_stored
              ltac:(vm_compute; reflexivity) ltac:(vm_compute; reflexivity)
              ltac:(vm_compute; reflexivity)) as (_ & d' & Hd & Hr & _ & Hf).
  exists d'. split; [exact Hd|]. split; [exact Hr|].
  rewrite (Hf "watched"); [reflexivity | discriminate | discriminate].
Defined.



(** ** Addresses *)

Lemma send_elsewhere (r : request) (path p : string)
    (f : gmap string obj -> option (gmap string obj)) (w : world) :
  (forall m m', f m = Some m' -> m' !! p = m !! p) ->
  remote (snd (send r f w)) !! p = remote w !! p.
Proof.
  intros Hf. unfold send.
  destruct (firestore_accepts w (length (requests w))); [|reflexivity].
  destruct (f (remote w)) as [m'|] eqn:E; [|reflexivity].
  simpl. by apply Hf.
Qed.

Lemma write_elsewhere (op : write) (p : string) (w : world) :
  p <> address op w -> remote (after_write op w) !! p = remote w !! p.
Proof.
  intros Hp.
  destruct op; simpl in *;
    unfold addItem, removeItem, markWatched, unmarkWatched, updateRating,
      patchItem, saveTasteNotes;
    rewrite !bind_get_world;
    destruct (uid_truthy (currentUid w)); simpl; try reflexivity.
  - destruct (List.find _ _); [reflexivity|].
    rewrite snd_bind_ret. apply (send_elsewhere _ p p).
    intros m m' [= <-]. by apply lookup_insert_ne.
  - apply (send_elsewhere _ p p). intros m m' [= <-]. by apply lookup_delete_ne.
  - apply (send_elsewhere _ p p). intros m m' H.
    destruct (m !! ref type tmdbId w); inversion H. by apply lookup_insert_ne.
  - apply (send_elsewhere _ p p). intros m m' H.
    destruct (m !! ref type tmdbId w); inversion H. by apply lookup_insert_ne.
  - apply (send_elsewhere _ p p). intros m m' H.
    destruct (m !! ref type tmdbId w); inversion H. by apply lookup_insert_ne.
  - apply (send_elsewhere _ p p). intros m m' H.
    destruct (m !! ref type tmdbId w); inversion H. by apply lookup_insert_ne.
  - unfold bind, setDoc.
    pose proof (send_elsewhere
      (SetDoc ("users/" +:+ default "" (currentUid w) +:+ "/profile/taste")
         {[ "tasteNotes" := notes ]}) p p
      (fun r => Some (<["users/" +:+ default "" (currentUid w) +:+ "/profile/taste"
                        := {[ "tasteNotes" := notes ]}]> r)) w) as Hs.
    destruct (send _ _ w) as [[[]|e] w']; simpl in *; apply Hs;
      intros m m' [= <-]; by apply lookup_insert_ne.
Qed.

Lemma ref_inj (type type' : media) (id id' : option value) (w : world) :
  ref type id w = ref type' id' w -> type = type' /\ String_ id = String_ id'.
Proof.
  unfold ref. intros H.
  apply String.app_inj, String.app_inj, String.app_inj in H.
  destruct type, type'; simpl in H; try discriminate; split; try reflexivity.
  - by apply (String.app_inj "movie/").
  - by apply (String.app_inj "tv/").
Qed.

Lemma ref_not_profile (type : media) (id : option value) (w : world) :
  ref type id w <> "users/" +:+ default "" (currentUid w) +:+ "/profile/taste".
Proof.
  unfold ref. intros H.
  apply String.app_inj, String.app_inj in H.
  destruct type; discriminate.
Qed.

Lemma address_record (op : write) (type : media) (n : Z) (w : world) :
  address op w = ref type (Some (VNum n)) w ->
  record_of op = Some (type, pretty n).
Proof.
  destruct op; simpl; intros H;
    try (apply ref_inj in H as [-> ->]; reflexivity).
  symmetry in H. by apply ref_not_profile in H.
Qed.

(** Extra X8.  A write of the store, whatever it is and however it ends,
    leaves the stored record of category [type] and id [n] as it was,
    unless it is a write for that category and an id with the same text.  So
    a movie and a show with the same catalog id never overwrite each other,
    and saving the taste notes touches no record. *)
Theorem write_leaves_other_records (op : write) (type : media) (n : Z) (w : world)
    (Hother : record_of op <> Some (type, pretty n)) :
  remote (after_write op w) !! ref type (Some (VNum n)) w
  = remote w !! ref type (Some (VNum n)) w.
Proof.
  apply write_elsewhere. intros H. apply Hother. symmetry in H.
  by apply address_record in H.
Qed.

Lemma write_leaves_other_records_witness :
  remote (after_write (WRemove tv (Some (VNum 603))) alice_stored)
    !! ref movie (Some (VNum 603)) alice_stored
  = Some (new_item film 1690000000000).
Proof.
  rewrite (write_leaves_other_records (WRemove tv (Some (VNum 603))) movie 603
             alice_stored); [|discriminate].
  vm_compute. reflexivity.
Defined.

(** Extra X9.  For a bound user and a candidate with integer id [n] that
    the cached collection does not hold, with both writes accepted:
    [addItem] returns [true] and stores the new record, replacing whatever
    document was stored for that id; [removeItem] after it deletes the
    document; and an update of the record after that is rejected as
    not found.  Neither call changes the cached collections. *)
Theorem removeItem_after_addItem (type : media) (item : obj) (n : Z) (w : world)
    (Hid : item !! "tmdbId" = Some (VNum n))
    (Hbound : uid_truthy (currentUid w) = true)
    (Hfresh : Forall (fun i => ~ has_id n i) (getAll type w))
    (Hfirst : firestore_accepts w (length (requests w)) = true)
    (Hsecond : firestore_accepts w (S (length (requests w))) = true)
    (Hthird : firestore_accepts w (S (S (length (requests w)))) = true) :
  let path := ref type (Some (VNum n)) w in
  let w1 := snd (addItem type item w) in
  let w2 := snd (removeItem type (Some (VNum n)) w1) in
  fst (addItem type item w) = Ok true
  /\ remote w1 !! path = Some (new_item item (now w))
  /\ fst (removeItem type (Some (VNum n)) w1) = Ok tt
  /\ remote w2 !! path = None
  /\ (forall rating notes,
        fst (updateRating type (Some (VNum n)) rating notes w2)
        = Throw (FirebaseError "not-found"))
  /\ (forall t, getAll t w1 = getAll t w /\ getAll t w2 = getAll t w).
Proof.
  intros path w1 w2.
  apply find_id_None in Hfresh.
  assert (E1 : addItem type item w =
    (Ok true, set_remote (<[path := new_item item (now w)]> (remote w))
                (requests w ++ [SetDoc path (new_item item (now w))]) w)).
  { unfold addItem. rewrite bind_get_world, Hbound, Hid. simpl. rewrite Hfresh.
    unfold bind, setDoc, send. by rewrite Hfirst. }
  subst w1 w2. rewrite E1. simpl.
  set (w1 := set_remote _ _ w).
  assert (Hlen : length (requests w1) = S (length (requests w))).
  { subst w1. simpl. rewrite length_app. simpl. lia. }
  assert (E2 : removeItem type (Some (VNum n)) w1 =
    (Ok tt, set_remote (delete path (remote w1))
              (requests w1 ++ [DeleteDoc path]) w1)).
  { unfold removeItem. rewrite bind_get_world.
    replace (uid_truthy (currentUid w1)) with true by (symmetry; exact Hbound).
    simpl. unfold deleteDoc, send.
    replace (firestore_accepts w1 (length (requests w1))) with true
      by (rewrite Hlen; symmetry; exact Hsecond).
    reflexivity. }
  rewrite E2. simpl.
  set (w2 := set_remote _ _ w1).
  split; [reflexivity|]. split; [subst w1; simpl; apply lookup_insert_eq|].
  split; [reflexivity|]. split; [apply lookup_delete_eq|].
  split; [|by intros []].
  intros rating notes. unfold updateRating. rewrite bind_get_world.
  replace (uid_truthy (currentUid w2)) with true by (symmetry; exact Hbound).
  simpl.
  rewrite (updateDoc_missing (ref type (Some (VNum n)) w2) _ w2); [reflexivity| |].
  - replace (length (requests w2)) with (S (S (length (requests w)))); [exact Hthird|].
    clear Hlen E2. subst w2 w1. simpl. rewrite !length_app. simpl. lia.
  - subst w2. simpl. apply lookup_delete_eq.
Qed.

Lemma removeItem_after_addItem_witness :
  fst (addItem movie heat alice_stored) = Ok true
  /\ remote (snd (removeItem movie (Some (VNum 949))
                    (snd (addItem movie heat alice_stored))))
       !! "users/alice/movie/949" = None.
Proof.
  assert (Hc : getAll movie alice_stored = [new_item film 1690000000000])
    by (vm_compute; reflexivity).
  destruct (removeItem_after_addItem movie heat 949 alice_stored
              ltac:(vm_compute; reflexivity) ltac:(vm_compute; reflexivity))
    as (H1 & _ & _ & H4 & _); try (vm_compute; reflexivity).
  - rewrite Hc. repeat constructor. unfold has_id. vm_compute. discriminate.
  - split; [exact H1|].
    assert (E : ref movie (Some (VNum 949)) alice_stored = "users/alice/movie/949")
      by (vm_compute; reflexivity).
    rewrite <- E. exact H4.
Defined.

(** ** The taste notes *)

(** Extra X10.  [saveTasteNotes] for a bound user sends one write of the
    profile document.  When Firestore accepts it, the document is replaced
    by one holding the notes and [getTasteNotes] returns them at once,
    before any snapshot; when Firestore rejects it, the call throws and
    [getTasteNotes] returns what it did before. *)
Theorem saveTasteNotes_spec (notes : value) (w : world)
    (Hbound : uid_truthy (currentUid w) = true) :
  let path := "users/" +:+ default "" (currentUid w) +:+ "/profile/taste" in
  let w' := snd (saveTasteNotes notes w) in
  requests w' = requests w ++ [SetDoc path {[ "tasteNotes" := notes ]}]
  /\ (firestore_accepts w (length (requests w)) = true ->
      fst (saveTasteNotes notes w) = Ok tt
      /\ getTasteNotes w' = Some notes
      /\ remote w' !! path = Some {[ "tasteNotes" := notes ]})
  /\ (firestore_accepts w (length (requests w)) = false ->
      fst (saveTasteNotes notes w) = Throw (FirebaseError "unavailable")
      /\ getTasteNotes w' = getTasteNotes w
      /\ remote w' = remote w).
Proof.
  intros path w'. subst w'. unfold saveTasteNotes.
  rewrite bind_get_world, Hbound. simpl. unfold bind, setDoc, send.
  destruct (firestore_accepts w (length (requests w))); simpl.
  - split; [reflexivity|]. split; [|discriminate].
    intros _. split; [reflexivity|]. split; [reflexivity|]. apply lookup_insert_eq.
  - split; [reflexivity|]. split; [discriminate|]. by intros _.
Qed.

Lemma saveTasteNotes_spec_witness :
  getTasteNotes (snd (saveTasteNotes (VStr "no horror") alice_stored))
  = Some (VStr "no horror").
Proof.
  apply (saveTasteNotes_spec (VStr "no horror") alice_stored);
    vm_compute; reflexivity.
Defined.

(** Extra X11.  No write of the store, however it ends, changes a cached
    collection, the bound identity or the listeners: the collections that
    [getAll] returns change only when the identity is bound or a snapshot
    arrives. *)
Theorem writes_leave_the_cache (op : write) (w : world) :
  (forall t, getAll t (after_write op w) = getAll t w)
  /\ (forall t id, getItem t id (after_write op w) = getItem t id w)
  /\ currentUid (after_write op w) = currentUid w
  /\ listeners (after_write op w) = listeners w.
Proof.
  destruct (after_write_same op w) as [(Hl & _ & Hu & _) [Hm Ht]].
  assert (Hall : forall t, getAll t (after_write op w) = getAll t w)
    by (by intros []).
  split; [exact Hall|]. split; [|by split].
  intros t id. unfold getItem. by rewrite Hall.
Qed.

End CacheFacts.

Module CallableFacts.
Import Js Json Functions AskAISpec AskAIFacts CallableSpec.

Lemma call_cases (trim : ustring -> ustring) (request : call) :
  auth request = false \/ no_prompt trim request \/ accepted_call trim request.
Proof.
  destruct (auth request) eqn:Ha; [right|by left].
  destruct (prompt request) as [p|] eqn:Hp.
  - destruct p as [|c p]; [left; split; [done|]; right; exists []; auto|].
    destruct (trim (c :: p)) as [|c' p'] eqn:Ht.
    + left. split; [done|]. right. exists (c :: p). auto.
    + right. split; [done|]. exists (c :: p). split; [done|]. split; [done|].
      by rewrite Ht.
  - left. split; [done|]. by left.
Qed.

Lemma askAI_no_prompt (trim : ustring -> ustring) (request : call) (key : bool)
    (created : outcome message) :
  no_prompt trim request -> askAI trim request key created = Throw prompt_required.
Proof.
  intros (Ha & [Hp | (p & Hp & [-> | Ht])]); unfold askAI; rewrite Ha, Hp; simpl;
    try reflexivity.
  destruct p; [reflexivity|]. by rewrite Ht.
Qed.

Lemma askAI_created (trim : ustring -> ustring) (request : call)
    (created : outcome message) :
  accepted_call trim request ->
  askAI trim request true created =
    match match created with Ok m => read_message m | Throw e => Throw e end with
    | Ok r => Ok r
    | Throw (HttpsError c msg) => Throw (HttpsError c msg)
    | Throw _ => Throw request_failed
    end.
Proof.
  intros (Hauth & p & Hp & Hne & Htrim). unfold askAI. rewrite Hauth, Hp. simpl.
  destruct p; [done|]. destruct (trim (n :: p)); [done|]. reflexivity.
Qed.

Lemma askAI_no_key (trim : ustring -> ustring) (request : call)
    (created : outcome message) :
  accepted_call trim request ->
  askAI trim request false created = Throw not_configured.
Proof.
  intros (Hauth & p & Hp & Hne & Htrim). unfold askAI. rewrite Hauth, Hp. simpl.
  destruct p; [done|]. destruct (trim (n :: p)); [done|]. reflexivity.
Qed.

Lemma read_message_Ok (m : message) (r : response) :
  read_message m = Ok r <->
  exists members, holds_object m members /\ classify (JObj members) = Ok r.
Proof.
  unfold read_message, holds_object. split.
  - destruct (match_braces (raw_text m)) as [matched|] eqn:Hm; [|discriminate].
    destruct (parse matched) as [parsed|] eqn:Hp; [|discriminate].
    intros Hc.
    assert (Hobj : is_obj parsed).
    { apply (proj1 (match_braces_Some _ _)) in Hm as (pre & body & post & _ & -> & _).
      by apply parse_brace_is_object in Hp. }
    destruct Hobj as (members & ->). exists members. split; [|exact Hc].
    by exists matched.
  - intros (members & (matched & -> & ->) & Hc). exact Hc.
Qed.

Lemma read_message_Throw (m : message) (e : exn) :
  read_message m = Throw e -> e = format_error \/ e = type_error \/ e = SyntaxError.
Proof.
  unfold read_message.
  destruct (match_braces (raw_text m)) as [matched|] eqn:Hm; [|intros [= <-]; by left].
  destruct (parse matched) as [parsed|] eqn:Hp; [|intros [= <-]; auto].
  assert (Hobj : is_obj parsed).
  { apply (proj1 (match_braces_Some _ _)) in Hm as (pre & body & post & _ & -> & _).
    by apply parse_brace_is_object in Hp. }
  destruct Hobj as (members & ->). rewrite classify_object.
  repeat destruct (is_string _ _); try discriminate. intros [= <-]. auto.
Qed.

(** Extra X12.  [askAI] returns a response exactly when the request is
    signed in and carries a prompt that is not blank, the secret is
    configured, the call of the model came back with a message, the text
    of the message holds a JSON object from its first opening to its last
    closing brace, and that object is of type recommendations or answer;
    the response is the one read from that object. *)
Theorem askAI_returns_iff (trim : ustring -> ustring) (request : call) (key : bool)
    (created : outcome message) (r : response) :
  askAI trim request key created = Ok r <->
  accepted_call trim request /\ key = true
  /\ exists m members,
       created = Ok m /\ holds_object m members /\ classify (JObj members) = Ok r.
Proof.
  split.
  - intros H.
    destruct (call_cases trim request) as [Ha | [Hn | Hc]].
    + unfold askAI in H. rewrite Ha in H. discriminate.
    + rewrite (askAI_no_prompt _ _ _ _ Hn) in H. discriminate.
    + split; [exact Hc|]. destruct key; [|by rewrite askAI_no_key in H].
      split; [reflexivity|]. rewrite (askAI_created _ _ _ Hc) in H.
      destruct created as [m|e]; [|destruct e; discriminate].
      destruct (read_message m) as [r'|e] eqn:Hr; [|destruct e; discriminate].
      injection H as ->. apply read_message_Ok in Hr as (members & Hh & Hcl).
      by exists m, members.
  - intros (Hc & -> & m & members & -> & Hh & Hcl).
    rewrite (askAI_created _ _ _ Hc).
    assert (Hr : read_message m = Ok r) by (apply read_message_Ok; eauto).
    by rewrite Hr.
Qed.

(** Extra X13.  Whatever the request, the secret and the model do, an
    exception of [askAI] is an [HttpsError], and the checks come in this
    order: a request without identity fails as unauthenticated; a signed-in
    request without a prompt that is not blank fails as an invalid argument;
    after that a missing secret fails as not configured, in all three
    cases whatever the model would have answered.  Past the checks the
    exception is the response-format error, the response-type error, an
    [HttpsError] that the call of the model threw, or the request-failed
    error. *)
Theorem askAI_throws (trim : ustring -> ustring) (request : call) (key : bool)
    (created : outcome message) (e : exn)
    (Hthrow : askAI trim request key created = Throw e) :
  (exists code message, e = HttpsError code message)
  /\ (auth request = false -> e = unauthenticated)
  /\ (no_prompt trim request -> e = prompt_required)
  /\ (accepted_call trim request -> key = false -> e = not_configured)
  /\ (accepted_call trim request -> key = true ->
      e = format_error \/ e = type_error \/ e = request_failed
      \/ exists code message,
           created = Throw (HttpsError code message) /\ e = HttpsError code message).
Proof.
  assert (Hpast : accepted_call trim request -> key = true ->
            e = format_error \/ e = type_error \/ e = request_failed
            \/ exists code message,
                 created = Throw (HttpsError code message)
                 /\ e = HttpsError code message).
  { intros Hc ->. rewrite (askAI_created _ _ _ Hc) in Hthrow.
    destruct created as [m|e'].
    - destruct (read_message m) as [r|e'] eqn:Hr; [discriminate|].
      apply read_message_Throw in Hr as [-> | [-> | ->]];
        injection Hthrow as <-; auto.
    - destruct e'; injection Hthrow as <-; eauto 10. }
  assert (Hunauth : auth request = false -> e = unauthenticated).
  { intros Ha. unfold askAI in Hthrow. rewrite Ha in Hthrow. by injection Hthrow. }
  assert (Hprompt : no_prompt trim request -> e = prompt_required).
  { intros Hn. rewrite (askAI_no_prompt _ _ _ _ Hn) in Hthrow. by injection Hthrow. }
  assert (Hkey : accepted_call trim request -> key = false -> e = not_configured).
  { intros Hc ->. rewrite (askAI_no_key _ _ _ Hc) in Hthrow. by injection Hthrow. }
  split; [|by repeat split].
  destruct (call_cases trim request) as [Ha | [Hn | Hc]].
  - rewrite (Hunauth Ha). by eexists _, _.
  - rewrite (Hprompt Hn). by eexists _, _.
  - destruct key.
    + destruct (Hpast Hc eq_refl) as [-> | [-> | [-> | (c & msg & _ & ->)]]];
        by eexists _, _.
    + rewrite (Hkey Hc eq_refl). by eexists _, _.
Qed.

Lemma askAI_returns_iff_witness :
  askAI (fun p => p) a_call true (Ok (says answer_payload))
  = Ok (Answer (JStr (U "H")) (JStr (U "T"))).
Proof.
  apply (askAI_returns_iff (fun p => p) a_call true (Ok (says answer_payload))).
  split; [exact a_call_accepted|]. split; [reflexivity|].
  exists (says answer_payload),
    [(U "type", JStr (U "answer")); (U "heading", JStr (U "H"));
     (U "text", JStr (U "T"))].
  split; [reflexivity|]. split; [|vm_compute; reflexivity].
  exists answer_payload. split; vm_compute; reflexivity.
Defined.

Lemma askAI_throws_witness :
  askAI (fun p => p) a_call true (Ok (says (U "{oops}"))) = Throw request_failed
  /\ exists code message, request_failed = HttpsError code message.
Proof.
  assert (H : askAI (fun p => p) a_call true (Ok (says (U "{oops}")))
              = Throw request_failed) by (vm_compute; reflexivity).
  split; [exact H|].
  exact (proj1 (askAI_throws (fun p => p) a_call true (Ok (says (U "{oops}")))
                  request_failed H)).
Defined.

End CallableFacts.

Module ProxyFacts.
Import Js Proxy ProxySpec.

Lemma good_path_check (path : option value) :
  negb (truthy path) || negb (is_string path) || negb (startsWith_slash path) = false
  <-> exists rest, path = Some (VStr (String "/" rest)).
Proof.
  split.
  - destruct path as [[| | | [|c rest] |]|]; simpl; try discriminate;
      try (rewrite orb_true_r; discriminate).
    destruct (Ascii.eqb c "/") eqn:Hc; [|discriminate].
    apply Ascii.eqb_eq in Hc. subst c. by exists rest.
  - intros (rest & ->). reflexivity.
Qed.

Lemma tmdb_passes {A} (request : call) (fetched : outcome (reply A)) :
  passes request true ->
  tmdb request true fetched =
    match fetched with
    | Ok res => if ok res then json res else Throw (upstream_error (status res))
    | Throw (HttpsError c msg) => Throw (HttpsError c msg)
    | Throw _ => Throw (HttpsError "internal" "Unexpected error.")
    end.
Proof.
  intros (Ha & (rest & Hd) & _). unfold tmdb. rewrite Ha, Hd. simpl.
  destruct fetched as [[[] st js]|e]; reflexivity.
Qed.

Lemma tmdb_checks {A} (request : call) (key : bool) (fetched : outcome (reply A)) :
  ~ passes request key ->
  tmdb request key fetched =
    if negb (auth request) then Throw (HttpsError "unauthenticated" "Must be signed in.")
    else match data request with
         | None => Throw TypeError
         | Some path =>
             if negb (truthy path) || negb (is_string path)
                || negb (startsWith_slash path)
             then Throw (HttpsError "invalid-argument" "Invalid TMDB path.")
             else Throw (HttpsError "internal" "API key not configured.")
         end.
Proof.
  intros Hn. unfold tmdb.
  destruct (auth request) eqn:Ha; simpl; [|reflexivity].
  destruct (data request) as [path|] eqn:Hd; [|reflexivity].
  destruct (_ || _) eqn:Hp; [reflexivity|].
  destruct key; [|reflexivity].
  exfalso. apply Hn. split; [exact Ha|]. split; [|reflexivity].
  apply good_path_check in Hp as (rest & ->). by exists rest.
Qed.

Lemma passes_dec (request : call) (key : bool) :
  passes request key \/ ~ passes request key.
Proof.
  unfold passes, good_path.
  destruct (auth request); [|right; intros (H & _); discriminate].
  destruct key; [|right; intros (_ & _ & H); discriminate].
  destruct (data request) as [[[| | | [|c rest] |]|]|];
    try (right; intros (_ & (r & H) & _); discriminate).
  destruct (Ascii.eqb c "/") eqn:Hc.
  - apply Ascii.eqb_eq in Hc. subst c. left. eauto.
  - right. intros (_ & (r & [= -> _]) & _). by rewrite Ascii.eqb_refl in Hc.
Qed.

(** Extra X14.  [tmdb] returns a value exactly when the request is signed
    in, its path is a string that starts with a slash, the secret is
    configured, the catalog answered with a success status and the body of
    the answer could be read; the value is that body. *)
Theorem tmdb_returns_iff {A} (request : call) (key : bool)
    (fetched : outcome (reply A)) (a : A) :
  tmdb request key fetched = Ok a <->
  passes request key
  /\ exists res, fetched = Ok res /\ ok res = true /\ json res = Ok a.
Proof.
  split.
  - intros H. destruct (passes_dec request key) as [Hp | Hn].
    + split; [exact Hp|]. destruct Hp as (Ha & Hg & ->).
      rewrite tmdb_passes in H by (by split).
      destruct fetched as [res|e]; [|destruct e; discriminate].
      destruct (ok res) eqn:Hok; [|discriminate]. by exists res.
    + rewrite (tmdb_checks _ _ _ Hn) in H.
      destruct (negb (auth request)); [discriminate|].
      destruct (data request); [|discriminate].
      destruct (_ || _); discriminate.
  - intros ((Ha & Hg & ->) & res & -> & Hok & Hj).
    rewrite tmdb_passes by (by split). by rewrite Hok.
Qed.

Lemma tmdb_returns_iff_witness :
  tmdb (Call true (Some (Some (VStr "/movie/603")))) true
    (Ok (Reply true 200 (Ok 603%Z))) = Ok 603%Z.
Proof.
  apply (tmdb_returns_iff (Call true (Some (Some (VStr "/movie/603")))) true
           (Ok (Reply true 200 (Ok 603%Z))) 603%Z).
  split; [split; [reflexivity|]; split; [by exists "movie/603" | reflexivity]|].
  by eexists.
Defined.

(** Extra X15.  An exception of [tmdb] is: the unauthenticated error for a
    request without identity; after that a [TypeError] for a request
    without data; after that the invalid-argument error for a path that is
    no string starting with a slash; after that the not-configured error
    when the secret is missing.  Past these checks, a catalog status that
    is no success gives the error that names the status; a failure to
    reach the catalog gives the unexpected-error, unless it was an
    [HttpsError]; and a failure to read the body of a successful answer
    is thrown as it is, not as an [HttpsError]. *)
Theorem tmdb_throws {A} (request : call) (key : bool)
    (fetched : outcome (reply A)) (e : exn)
    (Hthrow : tmdb request key fetched = Throw e) :
  (auth request = false -> e = HttpsError "unauthenticated" "Must be signed in.")
  /\ (auth request = true -> data request = None -> e = TypeError)
  /\ (auth request = true -> data request <> None -> ~ good_path request ->
      e = HttpsError "invalid-argument" "Invalid TMDB path.")
  /\ (auth request = true -> good_path request -> key = false ->
      e = HttpsError "internal" "API key not configured.")
  /\ (passes request key ->
      (forall res, fetched = Ok res -> ok res = false ->
         e = upstream_error (status res))
      /\ (forall res, fetched = Ok res -> ok res = true -> json res = Throw e)
      /\ (forall e', fetched = Throw e' ->
            (forall code message, e' <> HttpsError code message) ->
            e = HttpsError "internal" "Unexpected error.")).
Proof.
  split; [|split; [|split; [|split]]].
  - intros Ha. unfold tmdb in Hthrow. rewrite Ha in Hthrow. by injection Hthrow.
  - intros Ha Hd. unfold tmdb in Hthrow. rewrite Ha, Hd in Hthrow.
    by injection Hthrow.
  - intros Ha Hd Hg.
    rewrite tmdb_checks in Hthrow by (by intros (_ & H & _)).
    rewrite Ha in Hthrow. simpl in Hthrow.
    destruct (data request) as [path|] eqn:Hp; [|done].
    destruct (_ || _) eqn:Hc; [by injection Hthrow|].
    exfalso. apply Hg. apply good_path_check in Hc as (rest & ->). by exists rest.
  - intros Ha (rest & Hd) ->.
    rewrite tmdb_checks in Hthrow by (by intros (_ & _ & H)).
    rewrite Ha, Hd in Hthrow. by injection Hthrow.
  - intros Hp. destruct Hp as (Ha & Hg & ->).
    rewrite tmdb_passes in Hthrow by (by split).
    split; [|split].
    + intros res -> Hok. rewrite Hok in Hthrow. by injection Hthrow.
    + intros res -> Hok. by rewrite Hok in Hthrow.
    + intros e' -> Hne. destruct e'; try (by injection Hthrow).
      exfalso. by eapply Hne.
Qed.

Lemma tmdb_throws_witness :
  tmdb (Call true (Some (Some (VStr "/movie/603")))) true
    (Ok (Reply false 404 (Ok 0%Z))) = Throw (upstream_error 404).
Proof.
  assert (H : exists e,
            tmdb (Call true (Some (Some (VStr "/movie/603")))) true
              (Ok (Reply false 404 (Ok 0%Z))) = Throw e) by (by eexists).
  destruct H as (e & H). rewrite H. f_equal.
  refine (proj1 (proj2 (proj2 (proj2 (proj2
            (tmdb_throws (Call true (Some (Some (VStr "/movie/603")))) true
               (Ok (Reply false 404 (Ok 0%Z))) e H)))) _)
            (Reply false 404 (Ok 0%Z)) eq_refl eq_refl).
  split; [reflexivity|]. split; [by exists "movie/603" | reflexivity].
Defined.

End ProxyFacts.

Module ModalFacts.
Import Js Env Store Tmdb App Views StoreSpec StoreFacts BackfillSpec BackfillFacts ModalSpec.
Open Scope Z_scope.

Lemma stars_range (k : nat) (n : Z) : stars !! k = Some n -> 1 <= n <= 5.
Proof.
  do 5 (destruct k as [|k]; [intros [= <-]; lia|]). discriminate.
Qed.

Lemma click_star_same (k : nat) (m : rate_modal) :
  rm_type (click_star k m) = rm_type m
  /\ rm_tmdbId (click_star k m) = rm_tmdbId m
  /\ rm_editing (click_star k m) = rm_editing m
  /\ (selected_ok (selectedRating m) -> selected_ok (selectedRating (click_star k m))).
Proof.
  unfold click_star. destruct (stars !! k) as [n|] eqn:E; simpl; [|tauto].
  repeat split. intros _. exists n. split; [reflexivity|].
  apply stars_range in E. lia.
Qed.

Lemma clicks_same (ks : list nat) (m : rate_modal) :
  rm_type (clicks ks m) = rm_type m
  /\ rm_tmdbId (clicks ks m) = rm_tmdbId m
  /\ rm_editing (clicks ks m) = rm_editing m
  /\ (selected_ok (selectedRating m) -> selected_ok (selectedRating (clicks ks m))).
Proof.
  unfold clicks. revert m. induction ks as [|k ks IH]; intros m; simpl; [tauto|].
  destruct (IH (click_star k m)) as (H1 & H2 & H3 & H4).
  destruct (click_star_same k m) as (G1 & G2 & G3 & G4).
  rewrite H1, H2, H3, G1, G2, G3. repeat split; auto.
Qed.

Lemma clicks_last (ks : list nat) (k : nat) (n : Z) (m : rate_modal) :
  stars !! k = Some n -> selectedRating (clicks (ks ++ [k]) m) = VNum n.
Proof.
  intros Hk. unfold clicks. rewrite fold_left_app. simpl.
  unfold click_star. by rewrite Hk.
Qed.

Lemma or_null_selected (v : value) :
  selected_ok v -> valid_stars (or_value (Some v) VNull).
Proof.
  intros (n & -> & Hn). simpl.
  destruct (n =? 0) eqn:E; simpl; [by left|].
  apply Z.eqb_neq in E. right. exists n. split; [reflexivity | lia].
Qed.

(** Extra X16.  The rating modal opens for a record of the cached
    collection.  When the rating of that record is [null] or 1 to 5, then
    after any clicks on the stars the save button calls [updateRating]
    (editing) or [markWatched] (otherwise) for that record with the trimmed
    notes and a rating that is again [null] or 1 to 5: the value of the
    star clicked last, and without a click the rating the record had. *)
Theorem rating_modal_saves_valid_stars (trim : string -> string) (type : media)
    (id : option value) (editing : bool) (item : obj) (ks : list nat)
    (text : string) (w : world)
    (Hitem : getItem type id w = Some item)
    (Hvalid : stored_stars_valid item) :
  exists m r,
    openRateModal type id editing w = Some m
    /\ valid_stars r
    /\ save_rating trim text (clicks ks m) =
         (if editing then updateRating type id r (VStr (trim text))
          else markWatched type id r (VStr (trim text)))
    /\ (ks = [] -> r = or_value (item !! "rating") VNull)
    /\ (forall ks' k n, ks = ks' ++ [k] -> stars !! k = Some n -> r = VNum n).
Proof.
  unfold getItem in Hitem. unfold openRateModal. rewrite Hitem.
  set (m := RateModal type id editing (or_value (item !! "rating") (VNum 0))).
  assert (Hsel : selected_ok (selectedRating m)).
  { subst m. simpl. unfold stored_stars_valid in Hvalid.
    destruct (item !! "rating") as [v|]; simpl; [|exists 0; split; [done|lia]].
    destruct Hvalid as [-> | (n & -> & Hn)]; simpl.
    - exists 0. split; [done|lia].
    - replace (n =? 0) with false by (symmetry; apply Z.eqb_neq; lia). simpl.
      exists n. split; [done|lia]. }
  destruct (clicks_same ks m) as (H1 & H2 & H3 & H4).
  exists m, (or_value (Some (selectedRating (clicks ks m))) VNull).
  split; [reflexivity|]. split; [by apply or_null_selected, H4|].
  split; [|split].
  - unfold save_rating. rewrite H1, H2, H3. subst m. simpl. by destruct editing.
  - intros ->. subst m. simpl. unfold stored_stars_valid in Hvalid.
    destruct (item !! "rating") as [v|]; simpl; [|reflexivity].
    destruct Hvalid as [-> | (n & -> & Hn)]; simpl; [reflexivity|].
    replace (n =? 0) with false by (symmetry; apply Z.eqb_neq; lia). simpl.
    by replace (n =? 0) with false by (symmetry; apply Z.eqb_neq; lia).
  - intros ks' k n -> Hk. rewrite (clicks_last _ _ n _ Hk). simpl.
    apply stars_range in Hk.
    by replace (n =? 0) with false by (symmetry; apply Z.eqb_neq; lia).
Qed.

Lemma rating_modal_saves_valid_stars_witness :
  exists m,
    openRateModal movie (Some (VNum 603)) false alice_with_film = Some m
    /\ save_rating (fun s => s) "great" (clicks [1%nat; 3%nat] m)
       = markWatched movie (Some (VNum 603)) (VNum 4) (VStr "great").
Proof.
  destruct (rating_modal_saves_valid_stars (fun s => s) movie (Some (VNum 603)) false
              film [1%nat; 3%nat] "great" alice_with_film)
    as (m & r & Hm & _ & Hs & _ & Hr).
  - vm_compute. reflexivity.
  - exact I.
  - exists m. split; [exact Hm|].
    rewrite Hs. by rewrite (Hr [1%nat] 3%nat 4 eq_refl eq_refl).
Defined.

(** Extra X17.  [handleAdd] asks the catalog once, for the details of the
    item.  The only exception it can end with is the rejection of the
    write by Firestore: a failure of the catalog is absorbed, and then,
    for a bound user and an id the cached collection does not hold, the
    basic item is stored as a new record and the toast says it was
    added. *)
Theorem handleAdd_absorbs_catalog_failure (mediaType : media) (item : obj)
    (w : world) :
  let result := handleAdd mediaType item w in
  (forall e, fst result = Throw e -> e = FirebaseError "unavailable")
  /\ catalog_calls (snd result) = catalog_calls w ++ [detail_call mediaType item]
  /\ (forall e n,
        catalog_details w (length (catalog_calls w)) = Throw e ->
        item !! "tmdbId" = Some (VNum n) ->
        uid_truthy (currentUid w) = true ->
        Forall (fun i => ~ has_id n i) (getAll mediaType w) ->
        firestore_accepts w (length (requests w)) = true ->
        fst result = Ok (AddedToWatchlist (String_ (item !! "title")))
        /\ remote (snd result) !! ref mediaType (Some (VNum n)) w
           = Some (new_item item (now w))).
Proof.
  intros result. subst result.
  set (w1 := set_catalog_calls (catalog_calls w ++ [detail_call mediaType item]) w).
  set (enriched := match catalog_details w (length (catalog_calls w)) with
                   | Ok d => d
                   | Throw _ => item
                   end).
  assert (Hget : getDetails mediaType (item !! "tmdbId") w =
            (catalog_details w (length (catalog_calls w)), w1)).
  { destruct mediaType; reflexivity. }
  assert (Hrun : handleAdd mediaType item w =
            match addItem mediaType enriched w1 with
            | (Ok added, w') =>
                (Ok (if negb added then AlreadyOnList (String_ (item !! "title"))
                     else AddedToWatchlist (String_ (item !! "title"))), w')
            | (Throw e, w') => (Throw e, w')
            end).
  { unfold handleAdd, try_catch, bind. rewrite Hget. subst enriched.
    destruct (catalog_details w (length (catalog_calls w))) as [d|e]; simpl;
      destruct (addItem mediaType _ w1) as [[[]|e'] w']; reflexivity. }
  assert (Hadd : forall x,
            addItem mediaType x w1 = (Ok false, w1)
            \/ (exists w', addItem mediaType x w1 = (Ok true, w')
                           /\ catalog_calls w' = catalog_calls w1)
            \/ (exists w', addItem mediaType x w1
                           = (Throw (FirebaseError "unavailable"), w')
                           /\ catalog_calls w' = catalog_calls w1)).
  { intros x. unfold addItem, bind, get_world, ret.
    destruct (negb (uid_truthy (currentUid w1))); [by left|].
    destruct (List.find _ _); [by left|].
    unfold setDoc, send.
    destruct (firestore_accepts w1 (length (requests w1)));
      [right; left | right; right]; by eexists. }
  rewrite Hrun. split; [|split].
  - intros e. destruct (Hadd enriched) as [-> | [(w' & -> & _) | (w' & -> & _)]];
      simpl; try discriminate. by intros [= <-].
  - destruct (Hadd enriched) as [-> | [(w' & -> & Hc) | (w' & -> & Hc)]];
      simpl; rewrite ?Hc; reflexivity.
  - intros e n He Hid Hbound Hfresh Haccepts.
    subst enriched. rewrite He.
    apply find_id_None in Hfresh.
    assert (E : addItem mediaType item w1 =
              (Ok true, set_remote (<[ref mediaType (Some (VNum n)) w
                                      := new_item item (now w)]> (remote w))
                          (requests w ++ [SetDoc (ref mediaType (Some (VNum n)) w)
                                            (new_item item (now w))]) w1)).
    { unfold addItem, bind, get_world, ret.
      replace (uid_truthy (currentUid w1)) with true by (symmetry; exact Hbound).
      simpl. rewrite Hid.
      replace (getAll mediaType w1) with (getAll mediaType w)
        by (by destruct mediaType).
      rewrite Hfresh. unfold setDoc, send.
      replace (firestore_accepts w1 (length (requests w1))) with true
        by (symmetry; exact Haccepts).
      reflexivity. }
    rewrite E. simpl. split; [reflexivity|]. apply lookup_insert_eq.
Qed.

Lemma handleAdd_absorbs_catalog_failure_witness :
  fst (handleAdd movie heat alice_with_film) = Ok (AddedToWatchlist "Heat").
Proof.
  refine (proj1 (proj2 (proj2 (handleAdd_absorbs_catalog_failure movie heat
                                 alice_with_film))
                   (FirebaseError "unavailable") 949 _ _ _ _ _)).
  - vm_compute. reflexivity.
  - reflexivity.
  - vm_compute. reflexivity.
  - assert (E : getAll movie alice_with_film = [film]) by (vm_compute; reflexivity).
    rewrite E. repeat constructor. unfold has_id. vm_compute. discriminate.
  - vm_compute. reflexivity.
Defined.

End ModalFacts.

Module RepairFacts.
Import Js Env Store Tmdb App BackfillSpec BackfillFacts.

Lemma union_lookup_field (u i : obj) (f : string) :
  (u ∪ i) !! f = match u !! f with Some v => Some v | None => i !! f end.
Proof.
  destruct (u !! f) as [v|] eqn:E.
  - by apply lookup_union_Some_l.
  - by rewrite lookup_union_r.
Qed.

Lemma patched_tmdbRating (details i : obj) :
  nullish ((backfill_updates details ∪ i) !! "tmdbRating")
  = nullish (details !! "tmdbRating") && nullish (i !! "tmdbRating").
Proof.
  rewrite union_lookup_field, backfill_updates_lookup.
  repeat (case_decide; try discriminate; try congruence).
  by destruct (details !! "tmdbRating") as [[]|].
Qed.

Lemma patched_releaseDate (details i : obj) :
  is_undefined ((backfill_updates details ∪ i) !! "releaseDate")
  = is_undefined (details !! "releaseDate") && is_undefined (i !! "releaseDate").
Proof.
  rewrite union_lookup_field, backfill_updates_lookup.
  repeat (case_decide; try discriminate; try congruence).
  by destruct (details !! "releaseDate") as [[]|].
Qed.

Lemma patched_list (details i : obj) (f : string) :
  f = "genres" \/ f = "genreIds" ->
  has_length ((backfill_updates details ∪ i) !! f)
  = has_length (details !! f) || has_length (i !! f).
Proof.
  intros Hf. rewrite union_lookup_field, backfill_updates_lookup.
  destruct Hf as [-> | ->]; repeat (case_decide; try discriminate; try congruence).
  - destruct (has_length (details !! "genres")) eqn:E; [|reflexivity].
    destruct (details !! "genres") as [v|]; [|discriminate]. by rewrite E.
  - destruct (has_length (details !! "genreIds")) eqn:E; [|reflexivity].
    destruct (details !! "genreIds") as [v|]; [|discriminate]. by rewrite E.
Qed.

(** Extra X18.  The record that results from a patch of the backfill, the
    fields of the patch laid over the stored record, still needs a
    backfill exactly when one of the four descriptive fields is provided
    neither by the fetched details nor by the record.  So a patch from
    details that are themselves complete completes the record, a patch
    never makes a complete record incomplete, and a record for which the
    catalog has, say, no genres is fetched again by every run. *)
Theorem patched_record_needs_backfill (details i : obj) :
  let patched := backfill_updates details ∪ i in
  needs_backfill patched =
    (nullish (details !! "tmdbRating") && nullish (i !! "tmdbRating"))
    || (negb (has_length (details !! "genres")) && negb (has_length (i !! "genres")))
    || (is_undefined (details !! "releaseDate") && is_undefined (i !! "releaseDate"))
    || (negb (has_length (details !! "genreIds"))
        && negb (has_length (i !! "genreIds")))
  /\ (needs_backfill details = false -> needs_backfill patched = false)
  /\ (needs_backfill i = false -> needs_backfill patched = false)
  /\ (has_length (details !! "genres") = false ->
      has_length (i !! "genres") = false -> needs_backfill patched = true).
Proof.
  intros patched.
  assert (E : needs_backfill patched =
    (nullish (details !! "tmdbRating") && nullish (i !! "tmdbRating"))
    || (negb (has_length (details !! "genres")) && negb (has_length (i !! "genres")))
    || (is_undefined (details !! "releaseDate") && is_undefined (i !! "releaseDate"))
    || (negb (has_length (details !! "genreIds"))
        && negb (has_length (i !! "genreIds")))).
  { subst patched. unfold needs_backfill.
    rewrite patched_tmdbRating, patched_releaseDate,
      (patched_list details i "genres"), (patched_list details i "genreIds")
      by auto.
    by rewrite !negb_orb. }
  split; [exact E|]. rewrite E.
  split; [|split].
  - intros H. unfold needs_backfill in H.
    rewrite !orb_false_iff, !negb_false_iff in H.
    destruct H as (((-> & ->) & ->) & ->). reflexivity.
  - intros H. unfold needs_backfill in H.
    rewrite !orb_false_iff, !negb_false_iff in H.
    destruct H as (((-> & ->) & ->) & ->). simpl. by rewrite !andb_false_r.
  - intros -> ->. simpl. by rewrite orb_true_r.
Qed.

Lemma patched_record_needs_backfill_witness :
  needs_backfill matrix_stale = true
  /\ needs_backfill (backfill_updates matrix_details ∪ matrix_stale) = false.
Proof.
  split; [vm_compute; reflexivity|].
  apply (proj1 (proj2 (patched_record_needs_backfill matrix_details matrix_stale))).
  vm_compute. reflexivity.
Defined.

End RepairFacts.

Module ExploreFacts.
Import Views AiSpec AiFacts ExploreSpec.
Open Scope Z_scope.

Lemma insert_sorted_by {A : Type} (cmp : A -> A -> Z) (R : A -> A -> Prop)
    (x : A) (l : list A) :
  (forall a b, cmp a b <= 0 <-> R a b) ->
  (forall a b, R a b \/ R b a) ->
  (forall a b c, R a b -> R b c -> R a c) ->
  StronglySorted R l -> StronglySorted R (Ai.insert_sorted cmp x l).
Proof.
  intros cmp_R R_total R_trans.
  induction l as [|y l IH]; simpl; intros Hs.
  - repeat constructor.
  - apply StronglySorted_inv in Hs as [Hs Hy].
    destruct (cmp x y <=? 0) eqn:E.
    + apply Z.leb_le, cmp_R in E.
      constructor; [by constructor|].
      constructor; [exact E|].
      eapply Forall_impl; [exact Hy|]. intros z Hz. by apply (R_trans x y z).
    + apply Z.leb_gt in E.
      assert (Hyx : R y x).
      { destruct (R_total x y) as [H|H]; [|exact H]. apply cmp_R in H. lia. }
      constructor; [by apply IH|].
      rewrite insert_sorted_Permutation. by constructor.
Qed.

Lemma sort_sorted_by {A : Type} (cmp : A -> A -> Z) (R : A -> A -> Prop)
    (l : list A) :
  (forall a b, cmp a b <= 0 <-> R a b) ->
  (forall a b, R a b \/ R b a) ->
  (forall a b c, R a b -> R b c -> R a c) ->
  StronglySorted R (Ai.sort cmp l).
Proof.
  intros cmp_R R_total R_trans.
  induction l as [|x l IH]; simpl; [constructor|]. by apply insert_sorted_by.
Qed.

Lemma sorted_app {A : Type} (R : A -> A -> Prop) (l1 l2 : list A) :
  StronglySorted R (l1 ++ l2) ->
  StronglySorted R l1 /\ forall a b, In a l1 -> In b l2 -> R a b.
Proof.
  induction l1 as [|x l1 IH]; simpl; intros Hs.
  - split; [constructor | tauto].
  - apply StronglySorted_inv in Hs as [Hs Hx].
    destruct (IH Hs) as [H1 H2]. apply Forall_app in Hx as [Hx1 Hx2].
    split; [by constructor|].
    intros a b [<-|Ha] Hb; [|by apply H2].
    rewrite Forall_forall in Hx2. apply Hx2. by apply list_elem_of_In.
Qed.

Lemma by_rating_then_recency_outranks (a b : entry) :
  by_rating_then_recency a b <= 0 <-> outranks a b.
Proof.
  unfold by_rating_then_recency, outranks.
  destruct (or_0 (rating b) - or_0 (rating a) =? 0) eqn:E.
  - apply Z.eqb_eq in E. lia.
  - apply Z.eqb_neq in E. lia.
Qed.

Lemma outranks_total (a b : entry) : outranks a b \/ outranks b a.
Proof. unfold outranks. lia. Qed.

Lemma outranks_trans (a b c : entry) : outranks a b -> outranks b c -> outranks a c.
Proof. unfold outranks. lia. Qed.

(** Extra X19.  Explore makes its rows for the best of the watched records
    of the collection: six of them, or all when there are fewer; they come
    in order, the higher rating first and among equal ratings the one
    watched last first; and no watched record that is left out outranks
    one that is shown. *)
Theorem explore_sources_are_the_best (items : list entry) :
  let ws := List.filter watched items in
  let ss := sources items in
  length ss = Nat.min 6 (length ws)
  /\ StronglySorted outranks ss
  /\ exists rest,
       Permutation (ss ++ rest) ws
       /\ forall s r, In s ss -> In r rest -> outranks s r.
Proof.
  intros ws ss. subst ss. unfold sources. fold ws.
  set (sorted := Ai.sort by_rating_then_recency ws).
  assert (Hp : Permutation sorted ws) by apply sort_Permutation.
  assert (Hs : StronglySorted outranks sorted).
  { apply (sort_sorted_by by_rating_then_recency outranks).
    - apply by_rating_then_recency_outranks.
    - apply outranks_total.
    - apply outranks_trans. }
  rewrite <- (take_drop 6 sorted) in Hs.
  destruct (sorted_app outranks (take 6 sorted) (drop 6 sorted) Hs) as [H1 H2].
  split; [|split; [exact H1|]].
  - rewrite length_take. by rewrite (Permutation_length Hp).
  - exists (drop 6 sorted). split; [|exact H2].
    by rewrite take_drop.
Qed.

End ExploreFacts.

Module GridFacts.
Import Views.

Lemma upcoming_not_released (today : string) (d : option string) :
  is_upcoming today d = negb (is_released today d).
Proof.
  destruct d as [d|]; simpl; [|reflexivity].
  rewrite negb_orb. f_equal.
  unfold String.ltb, String.leb. rewrite (String.compare_antisym today d).
  by destruct (String.compare d today).
Qed.

(** Extra X20.  The grid splits the records it shows, whatever they are and
    whatever the day is, into the released and the upcoming ones without
    losing or repeating one: a record is in exactly one of the two
    sections, and one whose release date is [null] or empty counts as
    released. *)
Theorem grid_sections_partition {A : Type} (releaseDate : A -> option string)
    (today : string) (items : list A) :
  Permutation (released releaseDate today items ++ upcoming releaseDate today items)
    items
  /\ (forall i, In i items ->
        (In i (released releaseDate today items)
         <-> ~ In i (upcoming releaseDate today items)))
  /\ (forall i, In i items ->
        releaseDate i = None \/ releaseDate i = Some "" ->
        In i (released releaseDate today items)).
Proof.
  unfold released, upcoming. split; [|split].
  - induction items as [|i items IH]; simpl; [constructor|].
    rewrite upcoming_not_released.
    destruct (is_released today (releaseDate i)); simpl.
    + by constructor.
    + rewrite <- Permutation_middle. by constructor.
  - intros i Hi. rewrite !filter_In, upcoming_not_released.
    destruct (is_released today (releaseDate i)); simpl; intuition discriminate.
  - intros i Hi Hd. apply filter_In. split; [exact Hi|].
    by destruct Hd as [-> | ->].
Qed.

Lemma grid_sections_partition_witness :
  released (fun d : option string => d) "2026-11-03"
    [Some "2026-12-25"; None; Some "1999-03-31"]
  = [None; Some "1999-03-31"]
  /\ ~ In (Some "1999-03-31")
         (upcoming (fun d : option string => d) "2026-11-03"
            [Some "2026-12-25"; None; Some "1999-03-31"]).
Proof.
  split; [reflexivity|].
  apply (proj1 (proj2 (grid_sections_partition (fun d : option string => d)
                         "2026-11-03" [Some "2026-12-25"; None; Some "1999-03-31"]))).
  - simpl. tauto.
  - simpl. tauto.
Defined.

End GridFacts.

Module ProfileViewFacts.
Import Js Ai AiSpec AiFacts ProfileViewSpec.
Open Scope Z_scope.

Lemma genreScore_names (ws : list item) (g : string) :
  In g (map fst (genreScore ws)) <-> In g (flat_map genres_of ws).
Proof.
  assert (Hs : seen g (scored ws) = true <-> In g (flat_map genres_of ws)).
  { rewrite seen_In, scored_names. tauto. }
  rewrite <- Hs.
  pose proof (get_prop_None g (genreScore ws)) as Hn.
  assert (E : get_prop g (genreScore ws) =
              if seen g (scored ws) then Some (total g (scored ws)) else None).
  { rewrite genreScore_acc, get_acc. reflexivity. }
  destruct (seen g (scored ws)).
  - split; [reflexivity|]. intros _.
    destruct (in_dec string_dec g (map fst (genreScore ws))) as [H|H]; [exact H|].
    apply Hn in H. congruence.
  - split; [|discriminate]. intros Hin. exfalso. by apply (proj1 Hn E).
Qed.

Lemma ranked_NoDup (ws : list item) :
  NoDup (map fst (sort by_score_desc (genreScore ws))).
Proof.
  assert (Hp : Permutation (map fst (sort by_score_desc (genreScore ws)))
                 (map fst (genreScore ws))).
  { apply Permutation_map, sort_Permutation. }
  rewrite Hp. apply genreScore_NoDup.
Qed.

(** Extra X21.  The profile modal shows the taste profile of the two
    collections taken together: its liked records are those of that
    profile, its loved records are those of that profile arranged by
    stars, the most stars first and records of the same stars in their
    order, and the top genres of the profile are the first eight of the
    ten that the modal shows. *)
Theorem profile_modal_shows_the_profile (trim : string -> string)
    (allMovies allTV : list item) (notes : string) :
  let p := buildTasteProfile trim (allMovies ++ allTV) notes in
  topGenres p = take 8 (Views.modal_topGenres allMovies allTV)
  /\ liked p = map liked_of (Views.modal_liked allMovies allTV)
  /\ Permutation (loved p) (map loved_of (Views.modal_loved allMovies allTV))
  /\ StronglySorted (fun a b => stars_of b <= stars_of a)
       (Views.modal_loved allMovies allTV)
  /\ (forall v,
        map loved_of (List.filter (fun i => stars_of i =? v)
                        (Views.modal_loved allMovies allTV))
        = List.filter (fun e => default 0 (loved_stars e) =? v) (loved p)).
Proof.
  intros p. subst p. unfold Views.modal_topGenres, Views.modal_liked, Views.modal_loved.
  simpl.
  set (ws := List.filter watched (allMovies ++ allTV)).
  set (ls := List.filter (fun i => rating_ge i 4) ws).
  split; [|split; [reflexivity|split; [|split]]].
  - rewrite <- !fmap_take. change (take 8 (take 10 ?l)) with (take 8 (take 10 l)).
    by rewrite take_take.
  - apply Permutation_map. symmetry. apply sort_Permutation.
  - apply (sort_desc_sorted stars_of).
  - intros v.
    change Views.by_stars_desc with (desc stars_of).
    rewrite (sort_desc_stable stars_of).
    induction ls as [|i ls IH]; simpl; [reflexivity|].
    unfold stars_of at 1. destruct (default 0 (rating i) =? v); simpl; by rewrite IH.
Qed.

(** Extra X22.  For items whose genres are not named like an inherited
    property, [topGenres] names at most eight genres, each once, and each
    a genre of a watched item; and when the watched items have no more
    than eight different genres, it names them all. *)
Theorem topGenres_bounds (trim : string -> string) (items : list item)
    (notes : string) (Hown : own_names items = true) :
  let tg := topGenres (buildTasteProfile trim items notes) in
  (length tg <= 8)%nat
  /\ NoDup tg
  /\ (forall g, In g tg -> In g (watched_genres items))
  /\ ((length (remove_dups (watched_genres items)) <= 8)%nat ->
      forall g, In g (watched_genres items) -> In g tg).
Proof.
  intros tg. subst tg. unfold watched_genres. simpl.
  set (ws := List.filter watched items).
  set (ranked := sort by_score_desc (genreScore ws)).
  assert (Hnd : NoDup (map fst ranked)) by apply ranked_NoDup.
  assert (Hnames : forall g, In g (map fst ranked) <-> In g (flat_map genres_of ws)).
  { intros g. rewrite <- genreScore_names. split; apply Permutation_in;
      apply Permutation_map; [|symmetry]; apply sort_Permutation. }
  change (map fst (take 8 ranked)) with (fst <$> take 8 ranked).
  rewrite fmap_take.
  split; [|split; [|split]].
  - rewrite length_take. lia.
  - eapply sublist_NoDup; [exact Hnd | apply sublist_take].
  - intros g Hg. apply Hnames. apply list_elem_of_In.
    eapply elem_of_sublist; [by apply list_elem_of_In | apply sublist_take].
  - intros Hfew g Hg.
    assert (Hlen : length (map fst ranked) = length (remove_dups (flat_map genres_of ws))).
    { apply Permutation_length, NoDup_Permutation;
        [exact Hnd | apply NoDup_remove_dups|].
      intros x. rewrite list_elem_of_In, Hnames, <- list_elem_of_In.
      by rewrite elem_of_remove_dups. }
    rewrite take_ge; [by apply Hnames|].
    change (fst <$> ranked) with (map fst ranked). lia.
Qed.

Lemma topGenres_bounds_witness :
  NoDup (topGenres (buildTasteProfile (fun s => s) drama_comedy ""))
  /\ In "Comedy" (topGenres (buildTasteProfile (fun s => s) drama_comedy "")).
Proof.
  assert (Hown : own_names drama_comedy = true) by (vm_compute; reflexivity).
  destruct (topGenres_bounds (fun s => s) drama_comedy "" Hown)
    as (_ & Hnd & _ & Hall).
  split; [exact Hnd|]. apply Hall.
  - vm_compute. lia.
  - vm_compute. tauto.
Defined.

End ProfileViewFacts.
